(** * brachistools: the command-line driver ([brachistools/__main__.py])

    A shallow embedding of [main] and of the helpers it relies on, with the
    properties of the batch commands [segment], [classify] and [show].

    Layout:
    - [PyStr]    : the Python string and [os.path] operations [main] uses;
    - [PyHeap]   : Python dictionaries as heap objects (aliasing matters for
                   [default_segmentation_params.copy()]);
    - [Cli]      : [main] itself, as a state-and-exception computation over
                   an event trace;
    - [Folder]   : the folder enumerator ([load_folder]);
    - [Labels]   : label maps and the LabelMerger;
    - [Driver]   : the import block and the sub-commands outside the batch
                   part ([version], [gui], [config]);
    - [Runs]     : vocabulary for statements about whole runs.

    The definitions come first; the properties follow, one module of
    facts per module of definitions. *)

From Stdlib Require Import ZArith String Ascii List Bool Lia.
From stdpp Require Import base option list strings gmap fin_maps.

Local Open Scope Z_scope.

(* ===================================================================== *)
(** ** Python strings and [os.path] *)
(* ===================================================================== *)

Module PyStr.

(** [s.rfind(c)] for a one-character needle: the highest index of [c] in
    [s], or [-1]. [rfind_from] scans left to right, [i] being the index of
    the head of [s] and [last] the best index seen so far. *)
Fixpoint rfind_from (c : ascii) (s : string) (i last : Z) : Z :=
  match s with
  | EmptyString => last
  | String x r => rfind_from c r (i + 1) (if Ascii.eqb x c then i else last)
  end.

Definition rfind (c : ascii) (s : string) : Z := rfind_from c s 0 (-1).

(** Slices [s[:i]] and [s[i:]] for [0 <= i]. *)
Definition slice_to (s : string) (i : Z) : string :=
  substring 0 (Z.to_nat i) s.

Definition slice_from (s : string) (i : Z) : string :=
  substring (Z.to_nat i) (String.length s - Z.to_nat i) s.

(** [s[i:j]] for [0 <= i]. *)
Definition slice (s : string) (i j : Z) : string :=
  substring (Z.to_nat i) (Z.to_nat j - Z.to_nat i) s.

(** [s.startswith(p)] and [s.endswith(p)]. *)
Definition startswith (s p : string) : bool := String.prefix p s.

Definition endswith (s p : string) : bool :=
  let n := String.length s in
  let m := String.length p in
  (m <=? n)%nat && String.eqb (substring (n - m) m s) p.

(** [s[:-k]] for a positive [k]. *)
Definition drop_last (k : nat) (s : string) : string :=
  substring 0 (String.length s - k) s.

(** Whether some character of [s] differs from [c]. *)
Fixpoint has_other (c : ascii) (s : string) : bool :=
  match s with
  | EmptyString => false
  | String x r => negb (Ascii.eqb x c) || has_other c r
  end.

(** [os.path.splitext(p)] (POSIX flavour, [genericpath._splitext] with
    [sep = '/'], [extsep = '.']): split at the last dot of the last path
    component, unless that component consists of leading dots only up to
    that dot. The [while] loop of the library looks for a character other
    than a dot in [p[sepIndex+1 : dotIndex]]. *)
Definition splitext (p : string) : string * string :=
  let sepIndex := rfind "/" p in
  let dotIndex := rfind "." p in
  if sepIndex <? dotIndex then
    if has_other "." (slice p (sepIndex + 1) dotIndex)
    then (slice_to p dotIndex, slice_from p dotIndex)
    else (p, "")
  else (p, "").

(** [os.path.join(a, b)] for two components (POSIX flavour). *)
Definition path_join (a b : string) : string :=
  if startswith b "/" then b
  else if String.eqb a "" || endswith a "/" then a +:+ b
  else a +:+ "/" +:+ b.

(** [s.split(c)] for a one-character separator: the pieces between the
    occurrences of [c], empty pieces included. *)
Fixpoint split_on (c : ascii) (s : string) : list string :=
  match s with
  | EmptyString => [EmptyString]
  | String x r =>
      if Ascii.eqb x c then EmptyString :: split_on c r
      else match split_on c r with
           | [] => [String x EmptyString]
           | piece :: pieces => String x piece :: pieces
           end
  end.

(** ['/'.join(parts)]. *)
Fixpoint join_slash (parts : list string) : string :=
  match parts with
  | [] => EmptyString
  | [x] => x
  | x :: rest => x +:+ "/" +:+ join_slash rest
  end.

(** How [pathlib] reads a POSIX path: the root is ["//"] for exactly two
    leading slashes, ["/"] for any other number of them, and empty for a
    relative path; the components are the pieces between slashes, empty
    pieces and ["."] dropped. *)
Definition path_root (p : string) : string :=
  if startswith p "//" && negb (startswith p "///") then "//"
  else if startswith p "/" then "/"
  else "".

Definition path_parts (p : string) : list string :=
  List.filter (fun q => negb (String.eqb q "") && negb (String.eqb q "."))
              (split_on "/" p).

(** [str(Path(p).parent)]: the root and all components but the last,
    written with single slashes; ["."] when nothing is left. A path
    without components is its own parent. *)
Definition path_parent (p : string) : string :=
  let out := path_root p +:+ join_slash (removelast (path_parts p)) in
  if String.eqb out "" then "." else out.

(** [c.upper()] on ASCII letters, and [s.upper()]. *)
Definition upper_ascii (c : ascii) : ascii :=
  let n := nat_of_ascii c in
  if ((97 <=? n) && (n <=? 122))%nat then ascii_of_nat (n - 32) else c.

Fixpoint upper (s : string) : string :=
  match s with
  | EmptyString => EmptyString
  | String c r => String (upper_ascii c) (upper r)
  end.

(** Whether character [c] occurs in [s] ([c in s]). *)
Fixpoint contains (c : ascii) (s : string) : bool :=
  match s with
  | EmptyString => false
  | String x r => Ascii.eqb x c || contains c r
  end.

(** A path component as [pathlib] keeps it: not empty, not ["."],
    without slash. *)
Definition is_component (q : string) : bool :=
  negb (String.eqb q "") && negb (String.eqb q ".") && negb (contains "/" q).

(** The [%] operator of [str] as the [logging] module applies it to a
    message and its arguments ([msg % args]), restricted to the two
    directives that occur in this program's messages and their usual
    repair: "%%" yields a literal percent sign and consumes no argument,
    "%s" consumes one. [None] is Python's [TypeError] ("not enough
    arguments for format string" / "not all arguments converted during
    string formatting") or an unsupported directive. *)
Fixpoint percent_format (fmt : string) (args : list string) : option string :=
  match fmt with
  | EmptyString => match args with [] => Some "" | _ :: _ => None end
  | String "%" (String "%" r) =>
      match percent_format r args with
      | Some out => Some (String "%" out)
      | None => None
      end
  | String "%" (String "s" r) =>
      match args with
      | a :: args' =>
          match percent_format r args' with
          | Some out => Some (a +:+ out)
          | None => None
          end
      | [] => None
      end
  | String "%" _ => None
  | String c r =>
      match percent_format r args with
      | Some out => Some (String c out)
      | None => None
      end
  end.

End PyStr.

(* ===================================================================== *)
(** ** Python dictionaries as heap objects *)
(* ===================================================================== *)

Module PyHeap.

(** Numbers as [argparse] produces them with [type=int] and [type=float]:
    a float is kept as sign, mantissa and binary exponent (or zero,
    infinity, NaN); no arithmetic is performed on them by [main]. *)
Inductive pyfloat : Type :=
| FZero (neg : bool)
| FInf (neg : bool)
| FNan
| FFinite (neg : bool) (mantissa : positive) (exponent : Z).

Inductive number : Type :=
| NInt (z : Z)
| NFloat (f : pyfloat).

(** A dictionary entry holds a number or a reference to another
    dictionary ([default_segmentation_params] is a dictionary of
    dictionaries: [get_arg_parser] reads
    [default_segmentation_params['vahadane']['sparsity_regularizer']]). *)
Abbreviation loc := positive.

Inductive value : Type :=
| VNum (n : number)
| VDict (l : loc).

Abbreviation dict := (gmap string value).
Abbreviation heap := (gmap loc dict).


(** The dictionary stored at [l] (an unallocated location reads as the
    empty dictionary). *)
Definition heap_dict (h : heap) (l : loc) : dict := default ∅ (h !! l).

(** [d.copy()]: a new dictionary object (at a location distinct from [l]
    and from every allocated one) with the same entries; nested
    dictionaries are shared, not copied. *)
Definition dict_copy (h : heap) (l : loc) : heap * loc :=
  let r := fresh ({[l]} ∪ dom h) in (<[r := heap_dict h l]> h, r).

(** [d[k] = v]. *)
Definition dict_setitem (h : heap) (l : loc) (k : string) (v : value) : heap :=
  <[l := <[k := v]> (heap_dict h l)]> h.

(** [d[k]] ([None] is [KeyError]). *)
Definition dict_getitem (h : heap) (l : loc) (k : string) : option value :=
  heap_dict h l !! k.

(** [d[k1][k2]] ([None] is [KeyError], or [TypeError] when [d[k1]] is a
    number). *)
Definition dict_getitem2 (h : heap) (l : loc) (k1 k2 : string) : option value :=
  match dict_getitem h l k1 with
  | Some (VDict l') => dict_getitem h l' k2
  | _ => None
  end.

(** The module-level object [default_segmentation_params] (imported from
    [brachistools.segmentation]); its contents are whatever the heap
    holds at this location. *)
Definition default_segmentation_params : loc := 1%positive.

(** The seven segmentation options of the [segment] sub-parser, as
    attributes of the parsed namespace. *)
Record SegArgs : Type := {
  vahadane_sparsity_regularizer : value;
  equalize_adapthist_clip_limit : value;
  small_objects_min_size : value;
  small_holes_area_threshold : value;
  local_max_min_distance : value;
  local_max_threshold_rel : value;
  small_labels_min_size : value
}.

(** What the user typed for them ([None]: option absent), already
    converted by [type=float] or [type=int]. *)
Record SegCli : Type := {
  cli_vahadane_sparsity_regularizer : option pyfloat;
  cli_equalize_adapthist_clip_limit : option pyfloat;
  cli_small_objects_min_size : option Z;
  cli_small_holes_area_threshold : option Z;
  cli_local_max_min_distance : option Z;
  cli_local_max_threshold_rel : option pyfloat;
  cli_small_labels_min_size : option Z
}.

(** One [add_argument(..., type=float, default=d)] / [type=int]: the
    converted command-line value, or the default as it is. *)
Definition float_option (given : option pyfloat) (d : value) : value :=
  match given with Some f => VNum (NFloat f) | None => d end.

Definition int_option (given : option Z) (d : value) : value :=
  match given with Some z => VNum (NInt z) | None => d end.

(** [get_arg_parser] followed by [parse_args], for the segmentation
    options: each default is read from the nested table
    [default_segmentation_params[stage][param]]; [None] is the
    [KeyError] raised while the parser is built. *)
Definition parse_seg_args (h : heap) (cli : SegCli) : option SegArgs :=
  let dflt := dict_getitem2 h default_segmentation_params in
  d1 ← dflt "vahadane" "sparsity_regularizer";
  d2 ← dflt "equalize_adapthist" "clip_limit";
  d3 ← dflt "remove_small_objects" "min_size";
  d4 ← dflt "remove_small_holes" "area_threshold";
  d5 ← dflt "peak_local_max" "min_distance";
  d6 ← dflt "peak_local_max" "threshold_rel";
  d7 ← dflt "merge_small_labels" "min_size";
  Some {|
    vahadane_sparsity_regularizer :=
      float_option (cli_vahadane_sparsity_regularizer cli) d1;
    equalize_adapthist_clip_limit :=
      float_option (cli_equalize_adapthist_clip_limit cli) d2;
    small_objects_min_size := int_option (cli_small_objects_min_size cli) d3;
    small_holes_area_threshold :=
      int_option (cli_small_holes_area_threshold cli) d4;
    local_max_min_distance := int_option (cli_local_max_min_distance cli) d5;
    local_max_threshold_rel :=
      float_option (cli_local_max_threshold_rel cli) d6;
    small_labels_min_size := int_option (cli_small_labels_min_size cli) d7
  |}.

(** The seven keys under which [main] stores those options, in the order
    of the assignments, with the option each one receives. *)
Definition flat_entries (a : SegArgs) : list (string * value) :=
  [ ("vahadane:sparsity_regularizer", vahadane_sparsity_regularizer a);
    ("equalize_adapthist:clip_limit", equalize_adapthist_clip_limit a);
    ("remove_small_objects:min_size", small_objects_min_size a);
    ("remove_small_holes:area_threshold", small_holes_area_threshold a);
    ("peak_local_max:min_distance", local_max_min_distance a);
    ("peak_local_max:threshold_rel", local_max_threshold_rel a);
    ("merge_small_labels:min_size", small_labels_min_size a) ].

(** [segment_params = default_segmentation_params.copy()] followed by the
    seven assignments [segment_params['stage:param'] = args.<option>]:
    the new heap and the location of [segment_params]. *)
Definition build_segment_params (h : heap) (a : SegArgs) : heap * loc :=
  let '(h0, r) := dict_copy h default_segmentation_params in
  let h1 := dict_setitem h0 r "vahadane:sparsity_regularizer"
              (vahadane_sparsity_regularizer a) in
  let h2 := dict_setitem h1 r "equalize_adapthist:clip_limit"
              (equalize_adapthist_clip_limit a) in
  let h3 := dict_setitem h2 r "remove_small_objects:min_size"
              (small_objects_min_size a) in
  let h4 := dict_setitem h3 r "remove_small_holes:area_threshold"
              (small_holes_area_threshold a) in
  let h5 := dict_setitem h4 r "peak_local_max:min_distance"
              (local_max_min_distance a) in
  let h6 := dict_setitem h5 r "peak_local_max:threshold_rel"
              (local_max_threshold_rel a) in
  let h7 := dict_setitem h6 r "merge_small_labels:min_size"
              (small_labels_min_size a) in
  (h7, r).


(** A stage-qualified parameter name: [stage:param]. *)
Definition stage_qualified (k : string) : bool := PyStr.contains ":" k.


End PyHeap.

(* ===================================================================== *)
(** ** The command-line driver *)
(* ===================================================================== *)

Module Cli.
Import PyStr PyHeap.

(** The sub-commands that take the input-image arguments (the batch
    commands). [version], [gui] and [config] process no image and are left
    out. *)
Inductive command : Type := segment | classify | show.

(** [file_ext] as [main] passes it to [load_folder]: the string ['XML']
    for [show], a list of strings otherwise. *)
Inductive file_ext : Type :=
| ExtStr (e : string)
| ExtList (es : list string).

(** [file_ext] for each command: ['XML'] if the command is [show],
    [['PNG', 'JPG', 'JPEG']] otherwise. *)
Definition command_file_ext (c : command) : file_ext :=
  match c with
  | show => ExtStr "XML"
  | _ => ExtList ["PNG"; "JPG"; "JPEG"]
  end.

(** The parsed namespace [args]. [--dir] and [--image_path] default to
    the empty list (here [None]); [--save_dir] defaults to [None].
    [seg_args] are the seven segmentation options, which only the
    [segment] sub-parser defines and only the [segment] branch reads. *)
Record Args : Type := {
  cmd : command;
  verbose : bool;
  dir : option string;
  image_path : option string;
  ignored_suffixes : list string;
  save_format : string;
  save_dir : option string;
  save_npy : bool;
  seg_args : SegArgs
}.

(** Python's truth test on such an attribute: the default ([[]] or
    [None]) and the empty string are false. *)
Definition truthy (o : option string) : bool :=
  match o with
  | Some s => negb (String.eqb s "")
  | None => false
  end.

(** An exception object raised by a callee (a subclass of [Exception]),
    with its [str()]. *)
Record exn : Type := Exception { exn_str : string }.

(** What [main] does to the outside, in order. A call is recorded when
    it is made, whether or not it then raises. *)
Inductive event : Type :=
| EvLoggerSetup
| EvCritical (msg : string) (args : list string)
| EvLoadFolder (d : string) (ext : file_ext) (ignored : list string)
| EvImread (path : string)
| EvPipeline (params : loc) (contents : dict)
| EvImsave (path : string)
| EvXmlWrite (path : string)
| EvNpSave (path : string)
| EvXmlParse (path : string)
| EvXmlToLabels (use_tqdm : bool)
| EvClassify
| EvCsvOpen (path : string)
| EvCsvHeader
| EvCsvRow (image_name : string)
| EvCsvClose.

(** The program state: the trace of events so far and the heap of
    dictionaries. *)
Record state : Type := State { trace : list event; store : heap }.

(** How a computation ends: normally, with an exception, or through
    [sys.exit] ([SystemExit] is not an [Exception], so no
    [except Exception] clause catches it). *)
Inductive outcome (A : Type) : Type :=
| Normal (a : A)
| Raised (e : exn)
| Exited (status : Z).
Arguments Normal {A} a.
Arguments Raised {A} e.
Arguments Exited {A} status.

Definition M (A : Type) : Type := state → outcome A * state.

Definition ret {A} (a : A) : M A := fun s => (Normal a, s).

Definition bind {A B} (m : M A) (k : A → M B) : M B :=
  fun s =>
    match m s with
    | (Normal a, s') => k a s'
    | (Raised e, s') => (Raised e, s')
    | (Exited c, s') => (Exited c, s')
    end.

Notation "'let*' x ':=' m 'in' k" := (bind m (fun x => k))
  (at level 10, x pattern, m at level 100, k at level 200).
Notation "m ;;; k" := (bind m (fun _ => k))
  (at level 100, right associativity).

Definition emit (ev : event) : M unit :=
  fun s => (Normal tt, State (trace s ++ [ev]) (store s)).

(** [sys.exit(status)]. *)
Definition sys_exit {A} (status : Z) : M A := fun s => (Exited status, s).

(** [try: body except Exception as e: handler e]. *)
Definition try_except {A} (body : M A) (handler : exn → M A) : M A :=
  fun s =>
    match body s with
    | (Raised e, s') => handler e s'
    | r => r
    end.

(** A call to a function of the environment: the event is recorded, and
    the callee answers from the trace it sees. *)
Definition extern {A} (ev : event) (f : list event → exn + A) : M A :=
  fun s =>
    let s' := State (trace s ++ [ev]) (store s) in
    match f (trace s) with
    | inl e => (Raised e, s')
    | inr a => (Normal a, s')
    end.

(** A call that returns nothing ([None] is normal return). *)
Definition extern_ (ev : event) (f : list event → option exn) : M unit :=
  extern ev (fun t => match f t with Some e => inl e | None => inr tt end).

(** [logger.critical(msg, *args)]: the record is handed to the logger;
    formatting [msg % args] happens inside the logging module and never
    raises into the caller. *)
Definition critical (msg : string) (args : list string) : M unit :=
  emit (EvCritical msg args).

(** The text a handler emits for a [critical] record, when the record
    can be formatted. *)
Definition rendered (ev : event) : option string :=
  match ev with
  | EvCritical msg [] => Some msg
  | EvCritical msg args => percent_format msg args
  | _ => None
  end.

Section Main.

(** Arrays (images, masks, label maps), parsed XML trees and
    classification results are opaque to [main]. *)
Context {ndarray etree prediction : Type}.

(** The functions [main] imports, as the environment provides them. Each
    may raise; those that touch the outside world answer according to the
    trace so far. [segmentation_pipeline] receives the parameter
    dictionary by reference and may change the heap. *)
Record Env : Type := {
  load_folder :
    list event → string → file_ext → list string → exn + list string;
  imread : list event → string → exn + ndarray;
  segmentation_pipeline :
    list event → heap → ndarray → loc → (exn + ndarray * ndarray) * heap;
  img_as_ubyte : ndarray → exn + ndarray;
  imsave : list event → string → ndarray → option exn;
  labels_to_xml : ndarray → exn + etree;
  etree_write : list event → etree → string → option exn;
  np_save : list event → string → ndarray → option exn;
  et_parse : list event → string → exn + etree;
  xml_to_labels : list event → etree → bool → exn + ndarray * ndarray;
  classification_pipeline : list event → ndarray → exn + prediction;
  csv_open : list event → string → option exn;
  csv_writeheader : list event → option exn;
  csv_writerow : list event → string → prediction → option exn
}.

Variable env : Env.

(** A call that raises or returns without touching the outside. *)
Definition lift {A} (r : exn + A) : M A :=
  fun s => match r with inl e => (Raised e, s) | inr a => (Normal a, s) end.

(** The call [segmentation_pipeline(image, segment_params)]. *)
Definition call_pipeline (image : ndarray) (params : loc) :
    M (ndarray * ndarray) :=
  fun s =>
    let ev := EvPipeline params (heap_dict (store s) params) in
    let '(r, h') := segmentation_pipeline env (trace s) (store s) image params in
    let s' := State (trace s ++ [ev]) h' in
    match r with
    | inl e => (Raised e, s')
    | inr a => (Normal a, s')
    end.

(** The names of the files written for an input whose root name is
    [root]. *)
Definition mask_name (root fmt : string) : string := root +:+ "_mask." +:+ fmt.
Definition seg_xml_name (root : string) : string := root +:+ "_seg.xml".
Definition mask_npy_name (root : string) : string := root +:+ "_mask.npy".
Definition labels_npy_name (root : string) : string :=
  root +:+ "_mask_labels.npy".
Definition xml2seg_png_name (root : string) : string :=
  root +:+ "_xml2seg.PNG".
Definition xml2seg_npy_name (root : string) : string :=
  root +:+ "_xml2seg.npy".

(** [savepath(fn)]. *)
Definition savepath (the_save_dir fn : string) : string :=
  path_join the_save_dir fn.

(** The [try] block of the [segment] loop, for one file name. *)
Definition segment_body (args : Args) (the_dir the_save_dir : string)
    (segment_params : loc) (fn : string) : M unit :=
  let* image := extern (EvImread (path_join the_dir fn))
            (fun t => imread env t (path_join the_dir fn)) in
  let* res := call_pipeline image segment_params in
  let '(nucleus, labeled_nucleus) := res in
  let root := fst (splitext fn) in
  let mask_path := savepath the_save_dir (mask_name root (save_format args)) in
  let* ubyte := lift (img_as_ubyte env nucleus) in
  extern_ (EvImsave mask_path) (fun t => imsave env t mask_path ubyte) ;;;
  let* tree := lift (labels_to_xml env labeled_nucleus) in
  let xml_path := savepath the_save_dir (seg_xml_name root) in
  extern_ (EvXmlWrite xml_path) (fun t => etree_write env t tree xml_path) ;;;
  if save_npy args then
    let p1 := savepath the_save_dir (mask_npy_name root) in
    let p2 := savepath the_save_dir (labels_npy_name root) in
    extern_ (EvNpSave p1) (fun t => np_save env t p1 nucleus) ;;;
    extern_ (EvNpSave p2) (fun t => np_save env t p2 labeled_nucleus)
  else ret tt.

(** The [except Exception as e] clause of the [segment] loop. *)
Definition segment_failure_msg : string :=
  "Failed to segmentation picture '%%' due to exception: %%".

Definition segment_handler (fn : string) (e : exn) : M unit :=
  critical segment_failure_msg [fn; exn_str e].

(** [for fn in image_names: try: ... except Exception as e: ...]. *)
Fixpoint segment_loop (args : Args) (the_dir the_save_dir : string)
    (segment_params : loc) (image_names : list string) : M unit :=
  match image_names with
  | [] => ret tt
  | fn :: rest =>
      try_except (segment_body args the_dir the_save_dir segment_params fn)
                 (segment_handler fn) ;;;
      segment_loop args the_dir the_save_dir segment_params rest
  end.

(** The [try] block of the [show] loop. [n_names] is [len(image_names)]. *)
Definition show_body (args : Args) (the_dir the_save_dir : string)
    (n_names : nat) (seg_xml : string) : M unit :=
  let root_fn := fst (splitext seg_xml) in
  let root_fn :=
    if endswith root_fn "_seg" then drop_last 4 root_fn else root_fn in
  let xml_path := path_join the_dir seg_xml in
  let* tree := extern (EvXmlParse xml_path) (fun t => et_parse env t xml_path) in
  let use_tqdm := Nat.eqb n_names 1 in
  let* res := extern (EvXmlToLabels use_tqdm)
          (fun t => xml_to_labels env t tree use_tqdm) in
  let '(labels, pic) := res in
  let png_path := savepath the_save_dir (xml2seg_png_name root_fn) in
  extern_ (EvImsave png_path) (fun t => imsave env t png_path pic) ;;;
  if save_npy args then
    let npy_path := savepath the_save_dir (xml2seg_npy_name root_fn) in
    extern_ (EvNpSave npy_path) (fun t => np_save env t npy_path labels)
  else ret tt.

Definition show_failure_msg : string :=
  "Failed to transform segmentation XML '%%' due to exception: %%".

Definition show_handler (seg_xml : string) (e : exn) : M unit :=
  critical show_failure_msg [seg_xml; exn_str e].

Fixpoint show_loop (args : Args) (the_dir the_save_dir : string)
    (n_names : nat) (image_names : list string) : M unit :=
  match image_names with
  | [] => ret tt
  | seg_xml :: rest =>
      try_except (show_body args the_dir the_save_dir n_names seg_xml)
                 (show_handler seg_xml) ;;;
      show_loop args the_dir the_save_dir n_names rest
  end.

(** The body of the [classify] loop: no [try] around it, and the file
    name is read as it is, not joined with the directory. *)
Definition classify_body (fn : string) : M unit :=
  let* image := extern (EvImread fn) (fun t => imread env t fn) in
  let* p := extern EvClassify (fun t => classification_pipeline env t image) in
  extern_ (EvCsvRow fn) (fun t => csv_writerow env t fn p).

Fixpoint classify_loop (image_names : list string) : M unit :=
  match image_names with
  | [] => ret tt
  | fn :: rest => classify_body fn ;;; classify_loop rest
  end.

(** [with open('./result.csv', 'w', newline='') as csvfile: ...]: the
    file is closed when the block is left, also by an exception. *)
Definition with_csv (body : M unit) : M unit :=
  extern_ (EvCsvOpen "./result.csv") (fun t => csv_open env t "./result.csv") ;;;
  fun s =>
    match body s with
    | (r, s') => (r, State (trace s' ++ [EvCsvClose]) (store s'))
    end.

(** "Prepare images" (lines 157-181): the input directory, the file
    names to process and the directory results are saved to. *)
Definition prepare (args : Args) : M (string * list string * string) :=
  if truthy (dir args) && truthy (image_path args) then
    critical "Cannot specify both --dir and --image_path" [] ;;;
    sys_exit (-1)
  else
    let ext := command_file_ext (cmd args) in
    let* inp := (if truthy (dir args) then
             let d := default "" (dir args) in
             let* names := extern (EvLoadFolder d ext (ignored_suffixes args))
                       (fun t => load_folder env t d ext (ignored_suffixes args)) in
             ret (d, names)
           else if truthy (image_path args) then
             let p := default "" (image_path args) in
             ret (path_parent p, [p])
           else
             critical "Input is not specified" [] ;;;
             sys_exit (-1)) in
    let '(d, names) := inp in
    let sd := if truthy (save_dir args) then default "" (save_dir args) else d in
    ret (d, names, sd).

(** [main], from the parsed namespace on, for the three batch
    commands. *)
Definition main (args : Args) : M unit :=
  (if verbose args then emit EvLoggerSetup else ret tt) ;;;
  let* inp := prepare args in
  let '(d, names, sd) := inp in
  match cmd args with
  | show => show_loop args d sd (List.length names) names
  | segment =>
      let* segment_params := (fun s =>
        let '(h, r) := build_segment_params (store s) (seg_args args) in
        (Normal r, State (trace s) h)) in
      segment_loop args d sd segment_params names
  | classify =>
      with_csv (extern_ EvCsvHeader (fun t => csv_writeheader env t) ;;;
                classify_loop names)
  end.

End Main.

(** *** Vocabulary for the properties of [main] *)

(** The event of [--verbose]. *)
Definition logger_events (args : Args) : list event :=
  if verbose args then [EvLoggerSetup] else [].

(** The events of one iteration of the [segment] loop whose [try] block
    completes: the image is read, the pipeline is called on the record
    [r] (holding [c]), the mask image and the XML are written, and the
    two arrays are saved when [--save_npy] is set. *)
Definition success_events (args : Args) (d sd : string) (r : loc) (c : dict)
    (fn : string) : list event :=
  let root := fst (splitext fn) in
  [ EvImread (path_join d fn);
    EvPipeline r c;
    EvImsave (savepath sd (mask_name root (save_format args)));
    EvXmlWrite (savepath sd (seg_xml_name root)) ]
  ++ (if save_npy args
      then [ EvNpSave (savepath sd (mask_npy_name root));
             EvNpSave (savepath sd (labels_npy_name root)) ]
      else []).

(** What one iteration of the [segment] loop appends to the trace: the
    events of a successful iteration, or some events followed by the
    [critical] record of the [except] clause. *)
Definition file_outcome (args : Args) (d sd : string) (r : loc)
    (fn : string) (chunk : list event) : Prop :=
  (∃ c, chunk = success_events args d sd r c fn)
  ∨ (∃ pre e, chunk = pre ++ [EvCritical segment_failure_msg [fn; exn_str e]]).

(** The same for [show]. *)
Definition show_success_events (args : Args) (d sd : string) (n_names : nat)
    (seg_xml : string) : list event :=
  let root_fn := fst (splitext seg_xml) in
  let root_fn :=
    if endswith root_fn "_seg" then drop_last 4 root_fn else root_fn in
  [ EvXmlParse (path_join d seg_xml);
    EvXmlToLabels (Nat.eqb n_names 1);
    EvImsave (savepath sd (xml2seg_png_name root_fn)) ]
  ++ (if save_npy args
      then [ EvNpSave (savepath sd (xml2seg_npy_name root_fn)) ]
      else []).

Definition show_outcome (args : Args) (d sd : string) (n_names : nat)
    (seg_xml : string) (chunk : list event) : Prop :=
  chunk = show_success_events args d sd n_names seg_xml
  ∨ (∃ pre e,
       chunk = pre ++ [EvCritical show_failure_msg [seg_xml; exn_str e]]).



(** *** Sample environments *)

(** An environment in which the directory holds [a.png] and [b.png] and
    every call succeeds; arrays and trees carry no data. *)
Definition quiet_env : @Env unit unit unit := {|
  load_folder := fun _ _ _ _ => inr ["a.png"; "b.png"];
  imread := fun _ _ => inr tt;
  segmentation_pipeline := fun _ h _ _ => (inr (tt, tt), h);
  img_as_ubyte := fun _ => inr tt;
  imsave := fun _ _ _ => None;
  labels_to_xml := fun _ => inr tt;
  etree_write := fun _ _ _ => None;
  np_save := fun _ _ _ => None;
  et_parse := fun _ _ => inr tt;
  xml_to_labels := fun _ _ _ => inr (tt, tt);
  classification_pipeline := fun _ _ => inr tt;
  csv_open := fun _ _ => None;
  csv_writeheader := fun _ => None;
  csv_writerow := fun _ _ _ => None
|}.

(** The same directory, but [a.png] cannot be read. *)
Definition unreadable : exn := Exception "cannot identify image file".

Definition broken_image_env : @Env unit unit unit := {|
  load_folder := fun _ _ _ _ => inr ["a.png"; "b.png"];
  imread := fun _ p =>
    if String.eqb p "a.png" || String.eqb p "./a.png"
    then inl unreadable else inr tt;
  segmentation_pipeline := fun _ h _ _ => (inr (tt, tt), h);
  img_as_ubyte := fun _ => inr tt;
  imsave := fun _ _ _ => None;
  labels_to_xml := fun _ => inr tt;
  etree_write := fun _ _ _ => None;
  np_save := fun _ _ _ => None;
  et_parse := fun _ _ => inr tt;
  xml_to_labels := fun _ _ _ => inr (tt, tt);
  classification_pipeline := fun _ _ => inr tt;
  csv_open := fun _ _ => None;
  csv_writeheader := fun _ => None;
  csv_writerow := fun _ _ _ => None
|}.



(** A table of defaults of the shape [get_arg_parser] requires (the
    numbers are placeholders), and the namespace parsed from a command
    line that gives none of the segmentation options. *)
Definition sample_heap : heap :=
  {[ default_segmentation_params :=
       {[ "vahadane" := VDict 2%positive;
          "equalize_adapthist" := VDict 3%positive;
          "remove_small_objects" := VDict 4%positive;
          "remove_small_holes" := VDict 5%positive;
          "peak_local_max" := VDict 6%positive;
          "merge_small_labels" := VDict 7%positive ]};
     2%positive := {[ "sparsity_regularizer" := VNum (NFloat (FFinite false 1 (-1))) ]};
     3%positive := {[ "clip_limit" := VNum (NFloat (FFinite false 1 (-6))) ]};
     4%positive := {[ "min_size" := VNum (NInt 100) ]};
     5%positive := {[ "area_threshold" := VNum (NInt 100) ]};
     6%positive := {[ "min_distance" := VNum (NInt 5) ;
                      "threshold_rel" := VNum (NFloat (FFinite false 1 (-1))) ]};
     7%positive := {[ "min_size" := VNum (NInt 100) ]} ]}.

Definition no_seg_options : SegCli := {|
  cli_vahadane_sparsity_regularizer := None;
  cli_equalize_adapthist_clip_limit := None;
  cli_small_objects_min_size := None;
  cli_small_holes_area_threshold := None;
  cli_local_max_min_distance := None;
  cli_local_max_threshold_rel := None;
  cli_small_labels_min_size := None
|}.

Definition sample_seg_args : SegArgs :=
  default
    {| vahadane_sparsity_regularizer := VNum (NInt 0);
       equalize_adapthist_clip_limit := VNum (NInt 0);
       small_objects_min_size := VNum (NInt 0);
       small_holes_area_threshold := VNum (NInt 0);
       local_max_min_distance := VNum (NInt 0);
       local_max_threshold_rel := VNum (NInt 0);
       small_labels_min_size := VNum (NInt 0) |}
    (parse_seg_args sample_heap no_seg_options).

(** [brachistools <command> --dir .] and friends. *)
Definition sample_args (c : command) (the_dir the_image : option string) :
    Args := {|
  cmd := c;
  verbose := false;
  dir := the_dir;
  image_path := the_image;
  ignored_suffixes := ["_mask"; "_xml2seg"];
  save_format := "PNG";
  save_dir := None;
  save_npy := false;
  seg_args := sample_seg_args
|}.

Definition initial_state : state := State [] sample_heap.

End Cli.

(* ===================================================================== *)
(** ** The folder enumerator *)
(* ===================================================================== *)

Module Folder.
Import PyStr Cli.

(** The extension filters as a list (a single string is one filter). *)
Definition ext_filters (e : file_ext) : list string :=
  match e with
  | ExtStr s => [s]
  | ExtList l => l
  end.

(** Whether an extension as [splitext] returns it (with its dot) passes
    one of the filters (such as ['PNG']). Neither the specification nor
    the sources say whether letter case counts: [ignore_case] selects
    between comparing the extension with the filter as they are and
    comparing them in upper case. *)
Definition ext_matches (ignore_case : bool) (ext : string)
    (filters : list string) : bool :=
  existsb (fun f =>
             if ignore_case
             then String.eqb (upper ext) (upper ("." +:+ f))
             else String.eqb ext ("." +:+ f))
          filters.

(** "ignore file if its root name ends with these suffixes". *)
Definition is_ignored (root : string) (ignored : list string) : bool :=
  existsb (fun sfx => endswith root sfx) ignored.

Definition is_candidate (ignore_case : bool) (e : file_ext)
    (ignored : list string) (name : string) : bool :=
  let '(root, ext) := splitext name in
  ext_matches ignore_case ext (ext_filters e)
  && negb (is_ignored root ignored).

(** Modelled from the spec: [load_folder] of [brachistools.io], of which
    only the call in [main] and the help text of [--ignored_suffixes] are
    in the sources. Given the names found in the directory ([listing]),
    the extension filters and the suffix exclusions, it returns the
    sequence of the names whose extension passes a filter and whose root
    name ends with none of the excluded suffixes. *)
Definition load_folder (ignore_case : bool) (listing : list string)
    (e : file_ext) (ignored : list string) : list string :=
  List.filter (is_candidate ignore_case e ignored) listing.


End Folder.

(* ===================================================================== *)
(** ** Label maps and the LabelMerger *)
(* ===================================================================== *)

Module Labels.

(** A LabelMap: a 2D integer array as a list of rows; 0 is background,
    positive integers identify instances. A pixel is a (row, column)
    pair. *)
Abbreviation LabelMap := (list (list Z)).
Abbreviation pixel := (Z * Z)%type.

(** The label at a pixel; outside the array it reads as background. *)
Definition get (L : LabelMap) (p : pixel) : Z :=
  let '(r, c) := p in
  if (r <? 0) || (c <? 0) then 0
  else nth (Z.to_nat c) (nth (Z.to_nat r) L []) 0.

(** The pixels of the array, row by row. *)
Definition row_coords (r : nat) (row : list Z) : list pixel :=
  map (fun c => (Z.of_nat r, Z.of_nat c)) (seq 0 (List.length row)).

Fixpoint coords_from (r : nat) (L : LabelMap) : list pixel :=
  match L with
  | [] => []
  | row :: rest => row_coords r row ++ coords_from (S r) rest
  end.

Definition coords (L : LabelMap) : list pixel := coords_from 0 L.

(** The four pixels that share an edge with [p] (4-connectivity, held
    fixed throughout). *)
Definition nbrs4 (p : pixel) : list pixel :=
  let '(r, c) := p in [(r - 1, c); (r + 1, c); (r, c - 1); (r, c + 1)].

(** The pixels of instance [id], and its area. *)
Definition pixels_of (L : LabelMap) (id : Z) : list pixel :=
  List.filter (fun p => get L p =? id) (coords L).

Definition area (L : LabelMap) (id : Z) : Z :=
  Z.of_nat (List.length (pixels_of L id)).

(** The labels of the instances that touch instance [id]: the instance
    labels (positive), other than [id], found next to a pixel of [id]. *)
Definition nbr_labels (L : LabelMap) (id : Z) : list Z :=
  flat_map
    (fun p => List.filter (fun t => (0 <? t) && negb (t =? id))
                          (map (get L) (nbrs4 p)))
    (pixels_of L id).

(** The candidate of largest area; among candidates of equal area, the
    smallest ID. *)
Definition better (L : LabelMap) (t best : Z) : bool :=
  (area L best <? area L t) || ((area L best =? area L t) && (t <? best)).

Fixpoint pick_largest (L : LabelMap) (cands : list Z) : option Z :=
  match cands with
  | [] => None
  | t :: rest =>
      match pick_largest L rest with
      | None => Some t
      | Some best => if better L t best then Some t else Some best
      end
  end.

(** Reassign all pixels of [a] to [t]. *)
Definition relabel (L : LabelMap) (a t : Z) : LabelMap :=
  map (map (fun v => if v =? a then t else v)) L.

(** The largest label of the map (0 for a map without instances). *)
Definition max_label (L : LabelMap) : Z :=
  fold_right Z.max 0 (concat L).

(** The visit of one instance ID: an instance below [min_size] is merged
    into its largest touching neighbour; one that touches only
    background, or is large enough, is left as it is. Areas and
    neighbours are those of the map at the time of the visit. *)
Definition merge_step (min_size : Z) (L : LabelMap) (id : Z) : LabelMap :=
  if area L id <? min_size then
    match pick_largest L (nbr_labels L id) with
    | Some t => relabel L id t
    | None => L
    end
  else L.

(** The instance IDs [1 .. n], ascending. *)
Definition ids_upto (n : Z) : list Z :=
  map (fun i => Z.of_nat i) (seq 1 (Z.to_nat n)).

(** Modelled from the spec: the LabelMerger ([merge_small_labels] of
    [brachistools.segmentation], which is not in the sources; spec section
    4.6). One deterministic pass over the instance IDs in ascending
    order: "for every instance with pixel-area below [min_size], identify
    its largest-area touching neighbor instance and reassign all of the
    small instance's pixels to that neighbor's ID; instances touching only
    background are left unmerged even if undersized". Connectivity is
    4-connectivity; ties between neighbours of equal area go to the
    smaller ID. *)
Definition merge_small (L : LabelMap) (min_size : Z) : LabelMap :=
  fold_left (merge_step min_size) (ids_upto (max_label L)) L.

(** An instance is undersized when it exists and its area is below
    [min_size]. *)
Definition undersized (L : LabelMap) (min_size : Z) (id : Z) : Prop :=
  0 < area L id < min_size.

(** An instance ID the merger has nothing to do for: its instance is
    large enough, or touches no other instance (this includes the IDs
    that occur nowhere in the map). *)
Definition settled (min_size : Z) (L : LabelMap) (id : Z) : Prop :=
  min_size <= area L id ∨ nbr_labels L id = [].

End Labels.

(* ===================================================================== *)
(** ** The whole of [main]: the other sub-commands *)
(* ===================================================================== *)

Module Driver.
Import PyStr PyHeap Cli.

(** *** The import block (lines 12-23) *)

(** How [from brachistools.gui import gui] ends. *)
Inductive gui_import : Type :=
| GuiImported
| GuiImportError (err : exn)
| GuiOtherError (err : exn).

(** The module globals the block binds; [None] is a name that was never
    assigned. *)
Record Globals : Type := {
  GUI_ENABLED : bool;
  GUI_ERROR : option exn;
  GUI_IMPORT : option bool
}.

(** The [try]/[except ImportError]/[except Exception] block. The last
    clause assigns and then re-raises, so the module is not loaded and
    [main] never runs ([inl]). *)
Definition import_block (r : gui_import) : exn + Globals :=
  match r with
  | GuiImported =>
      inr {| GUI_ENABLED := true; GUI_ERROR := None; GUI_IMPORT := None |}
  | GuiImportError err =>
      inr {| GUI_ENABLED := false; GUI_ERROR := Some err;
             GUI_IMPORT := Some true |}
  | GuiOtherError err => inl err
  end.

(** *** The parsed namespace, for every way of calling the program *)

(** Only the sub-parsers of [segment], [classify] and [show] have
    [common_parser] among their parents: the namespace of the other
    sub-commands, and of a call without sub-command, has no attribute
    [dir]. *)
Inductive namespace : Type :=
| NsNone (verbose : bool)
| NsVersion (verbose : bool)
| NsGui (verbose : bool)
| NsConfig (verbose : bool) (param_dir : string)
| NsBatch (args : Args).

Definition ns_verbose (ns : namespace) : bool :=
  match ns with
  | NsNone v | NsVersion v | NsGui v | NsConfig v _ => v
  | NsBatch args => Cli.verbose args
  end.

(** What the program does outside the batch part. *)
Inductive devent : Type :=
| DPrint (line : string)
| DLoggerSetup
| DCritical (msg : string)
| DGuiRun
| DConfigRead (path : string)
| DConfigSet (section option value : string)
| DOpenWrite (path : string)
| DConfigWrite (path : string)
| DBatch (ev : event).

Definition DM (A : Type) : Type := list devent → outcome A * list devent.

Definition dret {A} (a : A) : DM A := fun t => (Normal a, t).

Definition dbind {A B} (m : DM A) (k : A → DM B) : DM B :=
  fun t =>
    match m t with
    | (Normal a, t') => k a t'
    | (Raised e, t') => (Raised e, t')
    | (Exited c, t') => (Exited c, t')
    end.

Notation "m >>> k" := (dbind m (fun _ => k))
  (at level 100, right associativity).

Definition demit (ev : devent) : DM unit := fun t => (Normal tt, t ++ [ev]).

Definition draise {A} (e : exn) : DM A := fun t => (Raised e, t).

Definition dexit {A} (status : Z) : DM A := fun t => (Exited status, t).

(** A call that may raise, recorded when it is made. *)
Definition dcall (ev : devent) (f : list devent → option exn) : DM unit :=
  fun t =>
    match f t with
    | Some e => (Raised e, t ++ [ev])
    | None => (Normal tt, t ++ [ev])
    end.

(** A bare [except:] clause: it catches whatever leaves the body,
    [SystemExit] included. *)
Definition try_bare_except {A} (body : DM A) (handler : DM A) : DM A :=
  fun t =>
    match body t with
    | (Normal a, t') => (Normal a, t')
    | (_, t') => handler t'
    end.

Section Whole.
Context {ndarray etree prediction : Type}.

(** What the non-batch commands call. [gui_run] is [gui.run()], which
    may return, raise or leave through [sys.exit]; the three
    [ConfigParser] operations and [open] may raise. *)
Record DEnv : Type := {
  version_str : string;
  gui_run : list devent → outcome unit;
  config_read : list devent → string → option exn;
  config_set : list devent → string → string → string → option exn;
  open_write : list devent → string → option exn;
  config_write : list devent → string → option exn;
  batch_env : @Env ndarray etree prediction
}.

Variable env : DEnv.

(** Reading a global that was never assigned raises [NameError]. *)
Definition name_error (name : string) : exn :=
  Exception ("name '" +:+ name +:+ "' is not defined").

Definition read_global {A} (name : string) (v : option A) : DM A :=
  match v with
  | Some a => dret a
  | None => draise (name_error name)
  end.

(** [args.dir] on a namespace without that attribute. *)
Definition attribute_error : exn :=
  Exception "'Namespace' object has no attribute 'dir'".

(** A double quote, for the text of the installation hint. *)
Definition dquote : string := String (ascii_of_nat 34) "".

Definition gui_hint_1 : string :=
  "GUI FAILED: GUI dependencies may not be installed, to install, run".

Definition gui_hint_2 : string :=
  "     pip install " +:+ dquote +:+ "brachistools[gui]" +:+ dquote.

(** The [gui] branch (lines 131-139). *)
Definition gui_branch (g : Globals) : DM unit :=
  if negb (GUI_ENABLED g) then
    dbind (read_global "GUI_ERROR" (GUI_ERROR g)) (fun err =>
    demit (DPrint ("GUI ERROR: " +:+ exn_str err)) >>>
    dbind (read_global "GUI_IMPORT" (GUI_IMPORT g)) (fun imp =>
    (if imp : bool
     then demit (DPrint gui_hint_1) >>> demit (DPrint gui_hint_2)
     else dret tt) >>>
    dexit (-1)))
  else
    fun t =>
      match gui_run env t with
      | Normal _ => (Normal tt, t ++ [DGuiRun])
      | Raised e => (Raised e, t ++ [DGuiRun])
      | Exited c => (Exited c, t ++ [DGuiRun])
      end.

(** The [config] branch (lines 141-155). *)
Definition config_branch (param_dir : string) : DM unit :=
  let config_path := "config.ini" in
  try_bare_except
    (dcall (DConfigRead config_path) (fun t => config_read env t config_path))
    (demit (DCritical "Failed to open config file") >>> dexit (-1)) >>>
  dcall (DConfigSet "ModelParams" "param_dir" param_dir)
        (fun t => config_set env t "ModelParams" "param_dir" param_dir) >>>
  dcall (DOpenWrite config_path) (fun t => open_write env t config_path) >>>
  dcall (DConfigWrite config_path) (fun t => config_write env t config_path).

(** The batch part, run on the heap [h]; its events are passed on. *)
Definition run_batch (args : Args) (h : heap) : DM unit :=
  fun t =>
    let '(o, s') := main (batch_env env) args (State [] h) in
    (o, t ++ map DBatch (trace s')).

(** [main], from the parsed namespace on. After the [version] branch,
    which returns, every call reaches "Prepare images" and reads
    [args.dir]. *)
Definition main_full (g : Globals) (ns : namespace) (h : heap) : DM unit :=
  match ns with
  | NsVersion _ => demit (DPrint (version_str env))
  | NsBatch args => run_batch args h
  | NsNone v =>
      (if v then demit DLoggerSetup else dret tt) >>>
      draise attribute_error
  | NsGui v =>
      (if v then demit DLoggerSetup else dret tt) >>>
      gui_branch g >>>
      draise attribute_error
  | NsConfig v param_dir =>
      (if v then demit DLoggerSetup else dret tt) >>>
      config_branch param_dir >>>
      draise attribute_error
  end.

End Whole.

(** The events of [--verbose] outside the batch part. *)
Definition dlogger_events (v : bool) : list devent :=
  if v then [DLoggerSetup] else [].

(** The namespaces without the attribute [dir]. *)
Definition lacks_dir (ns : namespace) : bool :=
  match ns with
  | NsNone _ | NsGui _ | NsConfig _ _ => true
  | NsVersion _ | NsBatch _ => false
  end.

(** Whether an event opens or writes [config.ini]. *)
Definition writes_config (ev : devent) : bool :=
  match ev with
  | DOpenWrite _ | DConfigWrite _ => true
  | _ => false
  end.

(** A sample environment: the GUI returns, and [config.ini] has no
    [ModelParams] section. *)
Definition no_section : exn := Exception "No section: 'ModelParams'".

Definition sample_denv : @DEnv unit unit unit := {|
  version_str := "brachistools";
  gui_run := fun _ => Normal tt;
  config_read := fun _ _ => None;
  config_set := fun _ _ _ _ => Some no_section;
  open_write := fun _ _ => None;
  config_write := fun _ _ => None;
  batch_env := quiet_env
|}.

End Driver.

(* ===================================================================== *)
(** ** Vocabulary for whole runs *)
(* ===================================================================== *)

Module Runs.
Import PyStr PyHeap Cli.

(** An outcome without its value. *)
Definition outcome_unit {A} (o : outcome A) : outcome unit :=
  match o with
  | Normal _ => Normal tt
  | Raised e => Raised e
  | Exited c => Exited c
  end.

(** The state in which "Prepare images" starts. *)
Definition after_logger (args : Args) (s : state) : state :=
  State (trace s ++ logger_events args) (store s).

(** The events of one completed iteration of the [classify] loop: the
    name is read as it is, classified, and one row is written. *)
Definition classify_events (fn : string) : list event :=
  [EvImread fn; EvClassify; EvCsvRow fn].

(** The first call of an iteration of the [segment] or [show] loop:
    the file at [path] is read. *)
Definition first_read (c : command) (path : string) : event :=
  match c with
  | show => EvXmlParse path
  | _ => EvImread path
  end.

(** The nested defaults [get_arg_parser] reads, as (stage, parameter). *)
Definition default_paths : list (string * string) :=
  [ ("vahadane", "sparsity_regularizer");
    ("equalize_adapthist", "clip_limit");
    ("remove_small_objects", "min_size");
    ("remove_small_holes", "area_threshold");
    ("peak_local_max", "min_distance");
    ("peak_local_max", "threshold_rel");
    ("merge_small_labels", "min_size") ].

End Runs.

(* ===================================================================== *)
(** * Properties *)
(* ===================================================================== *)

(** ** Strings and paths *)

Module PyStrFacts.
Import PyStr.

Lemma append_nil (s : string) : "" +:+ s = s.
Proof. reflexivity. Qed.

Lemma append_cons (x : ascii) (a b : string) :
  String x a +:+ b = String x (a +:+ b).
Proof. reflexivity. Qed.

Ltac unfold_append := rewrite ?append_cons, ?append_nil.
Ltac unfold_append_in H := rewrite ?append_cons, ?append_nil in H.

Lemma append_assoc (a b c : string) : (a +:+ b) +:+ c = a +:+ (b +:+ c).
Proof.
  induction a as [|x a IH]; unfold_append; [reflexivity | now rewrite IH].
Qed.

Lemma length_append (a b : string) :
  String.length (a +:+ b) = (String.length a + String.length b)%nat.
Proof.
  induction a as [|x a IH]; unfold_append; simpl;
    [reflexivity | now rewrite IH].
Qed.


Lemma substring_zero_all (s : string) : substring 0 (String.length s) s = s.
Proof. induction s as [|x s IH]; simpl; [reflexivity | now rewrite IH]. Qed.

Lemma substring_skip_app (a b : string) (n : nat) :
  substring (String.length a) n (a +:+ b) = substring 0 n b.
Proof.
  induction a as [|x a IH]; unfold_append; simpl; [reflexivity | exact IH].
Qed.



Lemma contains_app (c : ascii) (a b : string) :
  contains c (a +:+ b) = contains c a || contains c b.
Proof.
  induction a as [|x a IH]; unfold_append; simpl; [reflexivity |].
  rewrite IH. now rewrite orb_assoc.
Qed.






Lemma endswith_app (a sfx : string) : endswith (a +:+ sfx) sfx = true.
Proof.
  unfold endswith. rewrite length_append.
  replace (String.length a + String.length sfx - String.length sfx)%nat
    with (String.length a) by lia.
  rewrite substring_skip_app, substring_zero_all, String.eqb_refl.
  rewrite andb_true_r. apply Nat.leb_le. lia.
Qed.

End PyStrFacts.

(** ** The batch commands of [main] *)

Module CliFacts.
Import PyStr PyHeap Cli.

Ltac run :=
  unfold segment_body, show_body, classify_body, try_except, segment_handler,
    show_handler, with_csv, critical, call_pipeline, extern_, extern, lift,
    emit, sys_exit, bind, ret in *.

(** Case analysis on an innermost scrutinee of the goal. *)
Ltac split_match :=
  match goal with
  | |- context [match ?x with _ => _ end] =>
      lazymatch x with
      | context [match _ with _ => _ end] => fail
      | _ => destruct x eqn:?
      end
  end.

Ltac trace_eq := simpl; rewrite <- ?app_assoc; simpl; try reflexivity.

Section Facts.
Context {ndarray etree prediction : Type}.
Variable env : @Env ndarray etree prediction.

(** *** Input selection *)

(** C9. For [segment], [classify] and [show] alike: when [--dir] and
    [--image_path] are both given, or neither is (an option counts as given
    when its value passes Python's truth test, i.e. is a non-empty string),
    [main] logs one critical message and leaves through [sys.exit(-1)].
    Apart from the logger set-up of [--verbose], the critical record is the
    only event of the run: no folder is listed, no image is read or
    processed, nothing is written. *)
Theorem both_or_neither_exits (args : Args) (s : state) :
  (truthy (dir args) = true ∧ truthy (image_path args) = true)
  ∨ (truthy (dir args) = false ∧ truthy (image_path args) = false) →
  main env args s =
    (Exited (-1),
     State (trace s ++ logger_events args ++
            [EvCritical (if truthy (dir args)
                         then "Cannot specify both --dir and --image_path"
                         else "Input is not specified") []])
           (store s)).
Proof.
  intros [[Hd Hi] | [Hd Hi]]; unfold main, prepare, logger_events; run;
    rewrite Hd, Hi; destruct (verbose args); trace_eq.
Qed.

(** *** The [segment] loop *)

Lemma segment_body_spec args d sd r fn s :
  match segment_body env args d sd r fn s with
  | (Normal _, s') =>
      trace s' = trace s ++ success_events args d sd r (heap_dict (store s) r) fn
  | (Raised _, s') => ∃ pre, trace s' = trace s ++ pre
  | (Exited _, _) => False
  end.
Proof.
  unfold success_events. run.
  repeat (split_match; simpl); trace_eq; try (eexists; trace_eq).
Qed.

Lemma segment_iteration args d sd r fn s :
  ∃ chunk s',
    try_except (segment_body env args d sd r fn) (segment_handler fn) s
      = (Normal tt, s')
    ∧ trace s' = trace s ++ chunk
    ∧ file_outcome args d sd r fn chunk.
Proof.
  pose proof (segment_body_spec args d sd r fn s) as H.
  unfold try_except.
  destruct (segment_body env args d sd r fn s) as [[[] | e | c] s'].
  - eexists _, s'. split; [reflexivity |]. split; [exact H |].
    left. eexists. reflexivity.
  - destruct H as [pre Hpre].
    exists (pre ++ [EvCritical segment_failure_msg [fn; exn_str e]]).
    eexists. unfold segment_handler, critical, emit.
    split; [reflexivity |]. simpl. rewrite Hpre, <- app_assoc.
    split; [reflexivity |]. right. eauto.
  - destruct H.
Qed.


(** [main] for the [segment] command: the input selection, the record,
    the loop. *)
Lemma main_segment (args : Args) (s : state) :
  cmd args = segment →
  main env args s =
    match prepare env args (State (trace s ++ logger_events args) (store s))
    with
    | (Normal (d, names, sd), s1) =>
        segment_loop env args d sd
          (snd (build_segment_params (store s1) (seg_args args))) names
          (State (trace s1)
                 (fst (build_segment_params (store s1) (seg_args args))))
    | (Raised e, s1) => (Raised e, s1)
    | (Exited c, s1) => (Exited c, s1)
    end.
Proof.
  intros Hcmd. unfold main, logger_events. rewrite Hcmd.
  destruct s as [t h]. unfold bind, emit, ret.
  destruct (verbose args); simpl; rewrite ?app_nil_r;
    (destruct (prepare env args _) as [[[[d names] sd] | e | c] s1];
     [| reflexivity | reflexivity]);
    destruct (build_segment_params (store s1) (seg_args args));
    reflexivity.
Qed.

(** *** The [show] loop *)

Lemma show_body_spec args d sd n fn s :
  match show_body env args d sd n fn s with
  | (Normal _, s') =>
      trace s' = trace s ++ show_success_events args d sd n fn
  | (Raised _, s') => ∃ pre, trace s' = trace s ++ pre
  | (Exited _, _) => False
  end.
Proof.
  unfold show_success_events. run.
  repeat (split_match; simpl); trace_eq; try (eexists; trace_eq).
Qed.

Lemma show_iteration args d sd n fn s :
  ∃ chunk s',
    try_except (show_body env args d sd n fn) (show_handler fn) s
      = (Normal tt, s')
    ∧ trace s' = trace s ++ chunk
    ∧ show_outcome args d sd n fn chunk.
Proof.
  pose proof (show_body_spec args d sd n fn s) as H.
  unfold try_except.
  destruct (show_body env args d sd n fn s) as [[[] | e | c] s'].
  - eexists _, s'. split; [reflexivity |]. split; [exact H |].
    left. reflexivity.
  - destruct H as [pre Hpre].
    exists (pre ++ [EvCritical show_failure_msg [fn; exn_str e]]).
    eexists. unfold show_handler, critical, emit.
    split; [reflexivity |]. simpl. rewrite Hpre, <- app_assoc.
    split; [reflexivity |]. right. eauto.
  - destruct H.
Qed.

(** The [for] loop of the [show] command never aborts either: one chunk
    per XML file, a successful one being parse, rasterise, write
    [<root>_xml2seg.PNG] (with a trailing [_seg] removed from the root),
    and the [.npy] array when [--save_npy] is set. *)
Lemma show_loop_outputs (args : Args) (d sd : string) (n : nat)
    (names : list string) (s : state) :
  ∃ chunks s',
    show_loop env args d sd n names s = (Normal tt, s')
    ∧ trace s' = trace s ++ concat chunks
    ∧ Forall2 (show_outcome args d sd n) names chunks.
Proof.
  revert s. induction names as [| fn rest IH]; intros s.
  - exists [], s. simpl. rewrite app_nil_r. repeat split. constructor.
  - destruct (show_iteration args d sd n fn s) as (chunk & s1 & H1 & T1 & O1).
    destruct (IH s1) as (chunks & s2 & H2 & T2 & O2).
    exists (chunk :: chunks), s2. split; [| split].
    + cbn [show_loop]. unfold bind at 1. rewrite H1. exact H2.
    + rewrite T2, T1. simpl. now rewrite app_assoc.
    + now constructor.
Qed.

(** *** Single-image mode *)

Lemma prepare_image_path (args : Args) (s : state) (p : string) :
  truthy (dir args) = false →
  image_path args = Some p →
  p ≠ "" →
  prepare env args s
  = (Normal (path_parent p, [p],
             if truthy (save_dir args)
             then default "" (save_dir args)
             else path_parent p),
     s).
Proof.
  intros Hd Hi Hp. unfold prepare. run. rewrite Hd, Hi. simpl.
  destruct (String.eqb_spec p ""); [contradiction |]. reflexivity.
Qed.

(** *** The [classify] loop *)

(** An exception in the body of the [classify] loop leaves the loop: the
    remaining names are not visited. *)
Lemma classify_loop_raises (fn : string) (rest : list string) (s s' : state)
    (e : exn) :
  classify_body env fn s = (Raised e, s') →
  classify_loop env (fn :: rest) s = (Raised e, s').
Proof. intros H. cbn [classify_loop]. unfold bind. now rewrite H. Qed.

End Facts.

(** C9 at a concrete command line:
    [brachistools segment --dir . --image_path a.png]. *)
Lemma both_or_neither_exits_witness :
  main quiet_env (sample_args segment (Some ".") (Some "a.png")) initial_state
  = (Exited (-1),
     State [EvCritical "Cannot specify both --dir and --image_path" []]
           sample_heap).
Proof.
  exact (both_or_neither_exits quiet_env
           (sample_args segment (Some ".") (Some "a.png")) initial_state
           (or_introl (conj eq_refl eq_refl))).
Defined.

(** C3, at [brachistools classify --dir .] in a directory that holds an
    unreadable [a.png] and a good [b.png]: the exception raised by
    [imread("a.png")] leaves [main]; [b.png] is never read, and no critical
    record is logged. *)
Lemma classify_aborts_batch :
  main broken_image_env (sample_args classify (Some ".") None) initial_state
  = (Raised unreadable,
     State [ EvLoadFolder "." (ExtList ["PNG"; "JPG"; "JPEG"])
               ["_mask"; "_xml2seg"];
             EvCsvOpen "./result.csv"; EvCsvHeader;
             EvImread "a.png"; EvCsvClose ]
           sample_heap).
Proof. reflexivity. Qed.

(** The same directory under [segment]: the failure is caught, a
    critical record is made, and [b.png] is processed. *)
Lemma segment_continues_batch :
  ∃ c,
  main broken_image_env (sample_args segment (Some ".") None) initial_state
  = (Normal tt,
     State [ EvLoadFolder "." (ExtList ["PNG"; "JPG"; "JPEG"])
               ["_mask"; "_xml2seg"];
             EvImread "./a.png";
             EvCritical segment_failure_msg
               ["a.png"; "cannot identify image file"];
             EvImread "./b.png"; EvPipeline 8%positive c;
             EvImsave "./b_mask.PNG"; EvXmlWrite "./b_seg.xml" ]
           (<[8%positive := c]> sample_heap)).
Proof. eexists. vm_compute. reflexivity. Qed.

(** The critical records of the two [except] clauses cannot be formatted:
    their messages hold "%%" where "%s" is meant, so [msg % args] fails on
    the two arguments inside the logging module, which then reports a
    formatting error instead of emitting the message. *)
Lemma failure_record_not_rendered (fn e : string) :
  rendered (EvCritical segment_failure_msg [fn; e]) = None
  ∧ rendered (EvCritical show_failure_msg [fn; e]) = None.
Proof. split; reflexivity. Qed.

End CliFacts.

(** ** The parameter record of the [segment] command *)

Module ParamFacts.
Import PyStr PyHeap Cli CliFacts.

Lemma heap_dict_setitem_same (h : heap) (l : loc) (k : string) (v : value) :
  heap_dict (dict_setitem h l k v) l = <[k := v]> (heap_dict h l).
Proof. unfold heap_dict, dict_setitem. now rewrite lookup_insert_eq. Qed.

Lemma lookup_setitem_other (h : heap) (l l' : loc) (k : string) (v : value) :
  l' ≠ l → dict_setitem h l k v !! l' = h !! l'.
Proof. intros H. unfold dict_setitem. now rewrite lookup_insert_ne. Qed.

Lemma copy_fresh (h : heap) (l : loc) :
  snd (dict_copy h l) ≠ l ∧ snd (dict_copy h l) ∉ dom h.
Proof.
  unfold dict_copy. simpl.
  pose proof (is_fresh ({[l]} ∪ dom h)) as H.
  split; set_solver.
Qed.

(** The record is a new object. *)
Lemma build_fresh (h : heap) (a : SegArgs) :
  snd (build_segment_params h a) ≠ default_segmentation_params
  ∧ snd (build_segment_params h a) ∉ dom h.
Proof. apply (copy_fresh h default_segmentation_params). Qed.

(** Building the record writes to the new object only. *)
Lemma build_frame (h : heap) (a : SegArgs) (l : loc) :
  l ≠ snd (build_segment_params h a) →
  fst (build_segment_params h a) !! l = h !! l.
Proof.
  intros Hl. unfold build_segment_params in *. simpl in *.
  rewrite !lookup_setitem_other by exact Hl.
  now rewrite lookup_insert_ne.
Qed.

(** The contents of the record: the entries of
    [default_segmentation_params], then the seven assignments. *)
Lemma build_contents (h : heap) (a : SegArgs) :
  heap_dict (fst (build_segment_params h a)) (snd (build_segment_params h a))
  = <["merge_small_labels:min_size" := small_labels_min_size a]>
    (<["peak_local_max:threshold_rel" := local_max_threshold_rel a]>
    (<["peak_local_max:min_distance" := local_max_min_distance a]>
    (<["remove_small_holes:area_threshold" := small_holes_area_threshold a]>
    (<["remove_small_objects:min_size" := small_objects_min_size a]>
    (<["equalize_adapthist:clip_limit" := equalize_adapthist_clip_limit a]>
    (<["vahadane:sparsity_regularizer" := vahadane_sparsity_regularizer a]>
       (heap_dict h default_segmentation_params))))))).
Proof.
  unfold build_segment_params. simpl.
  rewrite !heap_dict_setitem_same.
  unfold heap_dict at 1. now rewrite lookup_insert_eq.
Qed.

Lemma build_other_keys (h : heap) (a : SegArgs) (k : string) :
  ¬ In k (map fst (flat_entries a)) →
  heap_dict (fst (build_segment_params h a)) (snd (build_segment_params h a))
    !! k
  = heap_dict h default_segmentation_params !! k.
Proof.
  intros Hk. rewrite build_contents. simpl in Hk.
  rewrite !lookup_insert_ne; [reflexivity | intros <-; apply Hk; auto 10 ..].
Qed.





(** *** The record and the defaults during a run *)

Section Sharing.
Context {ndarray etree prediction : Type}.
Variable env : @Env ndarray etree prediction.








End Sharing.



End ParamFacts.

(** ** The folder enumerator and the files [main] writes *)

Module FolderFacts.
Import PyStr PyStrFacts Cli Folder.

Lemma append_snoc_inj (a b : string) (c d : ascii) :
  a +:+ String c "" = b +:+ String d "" → a = b ∧ c = d.
Proof.
  revert b. induction a as [| x a IH]; intros [| y b] H;
    unfold_append_in H.
  - now injection H as ->.
  - injection H as -> H. destruct b; discriminate H.
  - injection H as -> H. destruct a; discriminate H.
  - injection H as -> H. destruct (IH b H) as [-> ->]. auto.
Qed.

Lemma substring_split (s : string) (n : nat) :
  (n <= String.length s)%nat →
  s = substring 0 n s +:+ substring n (String.length s - n) s.
Proof.
  revert n. induction s as [| x s IH]; intros n Hn.
  - simpl in Hn. assert (n = 0)%nat as -> by lia. reflexivity.
  - destruct n as [| n].
    + simpl. unfold_append. now rewrite substring_zero_all.
    + simpl in Hn. simpl. unfold_append. f_equal. apply IH. lia.
Qed.

Lemma endswith_inv (s p : string) :
  endswith s p = true → ∃ x, s = x +:+ p.
Proof.
  unfold endswith. intros H. apply andb_true_iff in H as [Hle Heq].
  apply Nat.leb_le in Hle. apply String.eqb_eq in Heq.
  remember (String.length p) as m eqn:Hm. clear Hm.
  exists (substring 0 (String.length s - m) s).
  rewrite <- Heq.
  pose proof (substring_split s (String.length s - m) ltac:(lia)) as Hs.
  replace (String.length s - (String.length s - m))%nat with m in Hs by lia.
  exact Hs.
Qed.

(** Comparing the last characters. *)
Lemma endswith_snoc (a p : string) (c d : ascii) :
  endswith (a +:+ String c "") (p +:+ String d "") = true →
  c = d ∧ endswith a p = true.
Proof.
  intros H. apply endswith_inv in H as [x Hx].
  rewrite <- append_assoc in Hx.
  apply append_snoc_inj in Hx as [-> ->].
  split; [reflexivity | apply endswith_app].
Qed.












End FolderFacts.

(** ** Paths: [pathlib] parents and [os.path.join] *)

Module PathFacts.
Import PyStr PyStrFacts FolderFacts.

Lemma split_on_no_sep (c : ascii) (s : string) :
  contains c s = false → split_on c s = [s].
Proof.
  induction s as [| x s IH]; simpl; [reflexivity |].
  intros H. apply orb_false_iff in H as [Hx Hs].
  rewrite Hx, (IH Hs). reflexivity.
Qed.

Lemma split_on_app (c : ascii) (a b : string) :
  contains c a = false →
  split_on c (a +:+ String c b) = a :: split_on c b.
Proof.
  induction a as [| x a IH]; intros H; unfold_append; simpl.
  - now rewrite Ascii.eqb_refl.
  - simpl in H. apply orb_false_iff in H as [Hx Ha].
    rewrite Hx, (IH Ha). reflexivity.
Qed.

Lemma is_component_inv (q : string) :
  is_component q = true → q ≠ "" ∧ q ≠ "." ∧ contains "/" q = false.
Proof.
  unfold is_component. rewrite !andb_true_iff, !negb_true_iff.
  intros [[H1 H2] H3]. repeat split; try assumption.
  - intros ->. discriminate H1.
  - intros ->. discriminate H2.
Qed.

Lemma path_parts_join (cs : list string) :
  forallb is_component cs = true → path_parts (join_slash cs) = cs.
Proof.
  unfold path_parts.
  set (keep := fun q : string =>
                 negb (String.eqb q "") && negb (String.eqb q ".")).
  induction cs as [| q cs IH]; intros H; [reflexivity |].
  cbn [forallb] in H. apply andb_true_iff in H as [Hq Hcs].
  pose proof (is_component_inv q Hq) as (Hne & Hnd & Hns).
  assert (Hkeep : keep q = true).
  { unfold is_component in Hq. now apply andb_true_iff in Hq as [Hq _]. }
  destruct cs as [| q' cs'].
  - cbn [join_slash]. rewrite (split_on_no_sep _ _ Hns).
    cbn [List.filter]. now rewrite Hkeep.
  - change (join_slash (q :: q' :: cs'))
      with (q +:+ String "/" (join_slash (q' :: cs'))).
    rewrite (split_on_app _ _ _ Hns). cbn [List.filter]. rewrite Hkeep.
    f_equal. apply IH. exact Hcs.
Qed.

Lemma append_nil_r (s : string) : s +:+ "" = s.
Proof.
  induction s as [| x s IH]; unfold_append; [reflexivity | now rewrite IH].
Qed.

Lemma startswith_cons (x : ascii) (s : string) (c : ascii) (r : string) :
  startswith (String x s) (String c r)
  = Ascii.eqb c x && startswith s r.
Proof.
  unfold startswith. simpl.
  destruct (ascii_dec c x) as [-> | Hn].
  - now rewrite Ascii.eqb_refl.
  - apply Ascii.eqb_neq in Hn. now rewrite Hn.
Qed.

(** A component does not start with a slash. *)
Lemma component_no_slash_start (q rest : string) :
  is_component q = true → startswith (q +:+ rest) "/" = false.
Proof.
  intros H. destruct (is_component_inv q H) as (Hne & _ & Hns).
  destruct q as [| x q]; [contradiction |].
  unfold_append. simpl in Hns. apply orb_false_iff in Hns as [Hx _].
  change "/" with (String "/" "") at 1.
  rewrite startswith_cons, Ascii.eqb_sym, Hx. reflexivity.
Qed.

Lemma join_slash_cons (q : string) (cs : list string) :
  cs ≠ [] → join_slash (q :: cs) = q +:+ "/" +:+ join_slash cs.
Proof. destruct cs; [contradiction | reflexivity]. Qed.

Lemma join_slash_start (cs : list string) :
  cs ≠ [] → forallb is_component cs = true →
  startswith (join_slash cs) "/" = false ∧ join_slash cs ≠ "".
Proof.
  destruct cs as [| q cs]; [contradiction |]. intros _ H.
  cbn [forallb] in H. apply andb_true_iff in H as [Hq _].
  destruct (is_component_inv q Hq) as (Hne & _ & _).
  destruct cs as [| q' cs'].
  - cbn [join_slash]. split; [| exact Hne].
    pose proof (component_no_slash_start q "" Hq) as Hs.
    now rewrite append_nil_r in Hs.
  - change (join_slash (q :: q' :: cs'))
      with (q +:+ ("/" +:+ join_slash (q' :: cs'))).
    split; [now apply component_no_slash_start |].
    destruct q; [contradiction | unfold_append; discriminate].
Qed.

Lemma path_root_relative (p : string) :
  startswith p "/" = false → path_root p = "".
Proof.
  intros H. unfold path_root. rewrite H.
  destruct p as [| x p]; [reflexivity |].
  rewrite startswith_cons in *.
  apply andb_false_iff in H as [H | H]; [now rewrite H |].
  unfold startswith in H. destruct p; discriminate H.
Qed.

(** [str(Path(p).parent)] for a relative path written with single
    slashes and without [.] components. *)
Lemma path_parent_join (cs : list string) :
  cs ≠ [] → forallb is_component cs = true →
  path_parent (join_slash cs)
  = match removelast cs with
    | [] => "."
    | ds => join_slash ds
    end.
Proof.
  intros Hne H. unfold path_parent.
  rewrite (path_parts_join cs H).
  destruct (join_slash_start cs Hne H) as [Hst _].
  rewrite (path_root_relative _ Hst), append_nil.
  destruct (removelast cs) as [| d ds] eqn:E; [reflexivity |].
  assert (Hgood : forallb is_component (d :: ds) = true).
  { rewrite <- E. apply forallb_forall. intros x Hx.
    rewrite forallb_forall in H. apply H.
    clear -Hx. induction cs as [| a cs IH]; [destruct Hx |].
    destruct cs as [| b cs]; [destruct Hx |].
    destruct Hx as [<- | Hx]; [now left | right; now apply IH]. }
  destruct (join_slash_start (d :: ds) ltac:(discriminate) Hgood) as [_ Hnn].
  destruct (String.eqb_spec (join_slash (d :: ds)) ""); [contradiction |].
  reflexivity.
Qed.

Lemma string_snoc (s : string) :
  s ≠ "" → ∃ y c, s = y +:+ String c "".
Proof.
  induction s as [| x s IH]; [contradiction |]. intros _.
  destruct s as [| x' s'].
  - exists "", x. reflexivity.
  - destruct (IH ltac:(discriminate)) as (y & c & Hy).
    exists (String x y), c. unfold_append. now rewrite <- Hy.
Qed.

Lemma join_slash_last (cs : list string) :
  cs ≠ [] → forallb is_component cs = true →
  ∃ y c, join_slash cs = y +:+ String c "" ∧ c ≠ "/"%char.
Proof.
  induction cs as [| q cs IH]; [contradiction |]. intros _ H.
  cbn [forallb] in H. apply andb_true_iff in H as [Hq Hcs].
  destruct cs as [| q' cs'].
  - destruct (is_component_inv q Hq) as (Hne & _ & Hns).
    destruct (string_snoc q Hne) as (y & c & ->).
    exists y, c. split; [reflexivity |]. intros ->.
    rewrite contains_app in Hns. simpl in Hns.
    rewrite orb_true_r in Hns. discriminate Hns.
  - destruct (IH ltac:(discriminate) Hcs) as (y & c & Hy & Hc).
    exists (q +:+ "/" +:+ y), c. split; [| exact Hc].
    change (join_slash (q :: q' :: cs'))
      with (q +:+ ("/" +:+ join_slash (q' :: cs'))).
    rewrite Hy. now rewrite !append_assoc.
Qed.

Lemma join_slash_no_slash_end (cs : list string) :
  cs ≠ [] → forallb is_component cs = true →
  endswith (join_slash cs) "/" = false.
Proof.
  intros Hne H. destruct (join_slash_last cs Hne H) as (y & c & -> & Hc).
  destruct (endswith (y +:+ String c "") "/") eqn:E; [| reflexivity].
  change "/" with ("" +:+ String "/" "") in E.
  apply endswith_snoc in E as [E _]. contradiction.
Qed.

Lemma join_slash_app (a b : list string) :
  a ≠ [] → b ≠ [] →
  join_slash (a ++ b) = join_slash a +:+ "/" +:+ join_slash b.
Proof.
  induction a as [| q a IH]; [contradiction |]. intros _ Hb.
  destruct a as [| q' a'].
  - simpl app. now apply join_slash_cons.
  - change ((q :: q' :: a') ++ b) with (q :: ((q' :: a') ++ b)).
    rewrite join_slash_cons by discriminate.
    rewrite (IH ltac:(discriminate) Hb).
    rewrite (join_slash_cons q (q' :: a')) by discriminate.
    now rewrite !append_assoc.
Qed.

(** [os.path.join(str(Path(p).parent), p)] for a relative [p] written
    with single slashes and without [.] components. *)
Lemma join_parent_relative (ds : list string) (name : string) :
  forallb is_component (ds ++ [name]) = true →
  path_join (path_parent (join_slash (ds ++ [name])))
            (join_slash (ds ++ [name]))
  = join_slash (match ds with
                | [] => ["."; name]
                | _ => ds ++ ds ++ [name]
                end).
Proof.
  intros H.
  assert (Hne : ds ++ [name] ≠ []) by (destruct ds; discriminate).
  rewrite (path_parent_join _ Hne H), removelast_last.
  destruct (join_slash_start _ Hne H) as [Hst _].
  unfold path_join. rewrite Hst.
  destruct ds as [| d ds]; [reflexivity |].
  assert (Hds : forallb is_component (d :: ds) = true).
  { rewrite forallb_app in H. now apply andb_true_iff in H as [H _]. }
  destruct (join_slash_start (d :: ds) ltac:(discriminate) Hds) as [_ Hnn].
  rewrite (join_slash_no_slash_end (d :: ds) ltac:(discriminate) Hds).
  destruct (String.eqb_spec (join_slash (d :: ds)) ""); [contradiction |].
  simpl orb. cbv iota.
  symmetry. apply (join_slash_app (d :: ds) ((d :: ds) ++ [name]));
    intros E; discriminate E.
Qed.

Lemma join_parent_absolute (d p : string) :
  startswith p "/" = true → path_join d p = p.
Proof. intros H. unfold path_join. now rewrite H. Qed.

(** Parents as [pathlib] gives them. *)
Example path_parent_examples :
  path_parent "x/a_seg.xml" = "x"
  ∧ path_parent "a.png" = "."
  ∧ path_parent "/data/run 1/a.png" = "/data/run 1"
  ∧ path_parent "x//y/./a.png" = "x/y"
  ∧ path_parent "/a.png" = "/"
  ∧ path_parent "../a.png" = "..".
Proof. repeat split; reflexivity. Qed.

End PathFacts.

(** ** The LabelMerger *)

Module LabelFacts.
Import Labels.

(** *** Reading a label map *)

Lemma get_relabel (L : LabelMap) (a t : Z) (p : pixel) :
  a ≠ 0 →
  get (relabel L a t) p = if get L p =? a then t else get L p.
Proof.
  intros Ha. destruct p as [r c]. unfold get, relabel.
  destruct ((r <? 0) || (c <? 0)).
  - destruct (Z.eqb_spec 0 a); [congruence | reflexivity].
  - set (f := fun v : Z => if v =? a then t else v).
    change (@nil Z) with (map f []) at 1.
    rewrite map_nth.
    replace 0 with (f 0) at 1
      by (unfold f; destruct (Z.eqb_spec 0 a); [congruence | reflexivity]).
    now rewrite map_nth.
Qed.

Lemma coords_from_relabel (L : LabelMap) (a t : Z) (k : nat) :
  coords_from k (relabel L a t) = coords_from k L.
Proof.
  revert k. induction L as [| row L IH]; intros k; simpl.
  - reflexivity.
  - unfold row_coords. rewrite length_map. now rewrite IH.
Qed.

Lemma coords_relabel (L : LabelMap) (a t : Z) :
  coords (relabel L a t) = coords L.
Proof. apply coords_from_relabel. Qed.

(** A pixel that does not read as background is a pixel of the array. *)
Lemma in_coords_from (L : LabelMap) (k : nat) (r c : Z) :
  Z.of_nat k <= r →
  0 <= c →
  nth (Z.to_nat c) (nth (Z.to_nat r - k) L []) 0 ≠ 0 →
  In (r, c) (coords_from k L).
Proof.
  revert k. induction L as [| row L IH]; intros k Hr Hc Hget.
  - destruct (Z.to_nat r - k)%nat, (Z.to_nat c); simpl in Hget; congruence.
  - simpl. apply in_or_app.
    destruct (Z.to_nat r - k)%nat as [| i] eqn:Ei.
    + left. simpl in Hget. unfold row_coords. apply in_map_iff.
      exists (Z.to_nat c). split; [f_equal; lia |].
      apply in_seq. split; [lia |]. simpl.
      destruct (Nat.lt_ge_cases (Z.to_nat c) (List.length row)) as [Hlt | Hge];
        [exact Hlt |].
      rewrite nth_overflow in Hget by exact Hge. congruence.
    + right. apply IH; [lia | exact Hc |].
      simpl in Hget. replace (Z.to_nat r - S k)%nat with i by lia.
      exact Hget.
Qed.

Lemma in_coords (L : LabelMap) (p : pixel) : get L p ≠ 0 → In p (coords L).
Proof.
  destruct p as [r c]. unfold get, coords.
  destruct (Z.ltb_spec r 0) as [Hr | Hr]; [simpl; congruence |].
  destruct (Z.ltb_spec c 0) as [Hc | Hc]; [simpl; congruence |]. simpl.
  intros Hget. apply in_coords_from; [lia | lia |].
  now rewrite Nat.sub_0_r.
Qed.

Lemma in_pixels_of (L : LabelMap) (id : Z) (p : pixel) :
  In p (pixels_of L id) ↔ In p (coords L) ∧ get L p = id.
Proof.
  unfold pixels_of. rewrite filter_In. now rewrite Z.eqb_eq.
Qed.

Lemma nbrs4_sym (p q : pixel) : In q (nbrs4 p) → In p (nbrs4 q).
Proof.
  destruct p as [r c], q as [r' c']. simpl.
  intros [H | [H | [H | [H | []]]]]; injection H as <- <-.
  - right. left. f_equal. lia.
  - left. f_equal. lia.
  - right. right. right. left. f_equal. lia.
  - right. right. left. f_equal. lia.
Qed.

(** *** Touching instances *)

Lemma in_nbr_labels (L : LabelMap) (id t : Z) :
  In t (nbr_labels L id) ↔
  ∃ p q, In p (coords L) ∧ get L p = id ∧ In q (nbrs4 p)
         ∧ get L q = t ∧ 0 < t ∧ t ≠ id.
Proof.
  unfold nbr_labels. rewrite in_flat_map. split.
  - intros (p & Hp & Ht). apply in_pixels_of in Hp as [Hc Hg].
    apply filter_In in Ht as [Hm Hb]. apply in_map_iff in Hm as (q & Hq & Hn).
    apply andb_true_iff in Hb as [H0 Hne].
    apply Z.ltb_lt in H0. apply negb_true_iff, Z.eqb_neq in Hne.
    exists p, q. auto 10.
  - intros (p & q & Hc & Hg & Hn & Hq & H0 & Hne).
    exists p. split; [apply in_pixels_of; auto |].
    apply filter_In. split; [apply in_map_iff; eauto |].
    apply andb_true_iff. split; [now apply Z.ltb_lt |].
    now apply negb_true_iff, Z.eqb_neq.
Qed.

Lemma no_nbrs_iff (L : LabelMap) (id : Z) :
  nbr_labels L id = [] ↔
  ∀ p q, In p (coords L) → get L p = id → In q (nbrs4 p) →
         get L q <= 0 ∨ get L q = id.
Proof.
  split.
  - intros Hnil p q Hc Hg Hn.
    destruct (Z_le_gt_dec (get L q) 0) as [Hle | Hgt]; [now left |].
    destruct (Z.eq_dec (get L q) id) as [Heq | Hne]; [now right |].
    exfalso.
    assert (Hin : In (get L q) (nbr_labels L id)).
    { apply in_nbr_labels. exists p, q. repeat split; auto; lia. }
    rewrite Hnil in Hin. destruct Hin.
  - intros H. destruct (nbr_labels L id) as [| t l] eqn:E; [reflexivity |].
    exfalso.
    assert (Hin : In t (nbr_labels L id)) by (rewrite E; now left).
    apply in_nbr_labels in Hin as (p & q & Hc & Hg & Hn & Hq & H0 & Hne).
    destruct (H p q Hc Hg Hn); lia.
Qed.

Lemma pick_largest_in (L : LabelMap) (cands : list Z) (t : Z) :
  pick_largest L cands = Some t → In t cands.
Proof.
  revert t. induction cands as [| c rest IH]; intros t H; simpl in H.
  - discriminate H.
  - destruct (pick_largest L rest) as [best |].
    + destruct (better L c best); injection H as <-; [now left |].
      right. now apply IH.
    + injection H as <-. now left.
Qed.

Lemma pick_largest_none (L : LabelMap) (cands : list Z) :
  pick_largest L cands = None → cands = [].
Proof.
  destruct cands as [| c rest]; [reflexivity |]. simpl.
  destruct (pick_largest L rest) as [best |]; [| discriminate].
  destruct (better L c best); discriminate.
Qed.

(** *** One visit *)

Lemma filter_length_mono {A} (P Q : A → bool) (l : list A) :
  (∀ x, P x = true → Q x = true) →
  (List.length (List.filter P l) <= List.length (List.filter Q l))%nat.
Proof.
  intros H. induction l as [| x l IH]; simpl; [lia |].
  destruct (P x) eqn:EP.
  - rewrite (H x EP). simpl. lia.
  - destruct (Q x); simpl; lia.
Qed.

Lemma area_relabel_mono (L : LabelMap) (a t j : Z) :
  a ≠ 0 → j ≠ a → area L j <= area (relabel L a t) j.
Proof.
  intros Ha Hj. unfold area, pixels_of. rewrite coords_relabel.
  apply inj_le, filter_length_mono. intros p Hp.
  apply Z.eqb_eq in Hp. apply Z.eqb_eq. rewrite get_relabel by exact Ha.
  destruct (Z.eqb_spec (get L p) a); congruence.
Qed.

Lemma settled_fixed (k : Z) (L : LabelMap) (id : Z) :
  settled k L id → merge_step k L id = L.
Proof.
  unfold merge_step. intros [Hk | Hn].
  - destruct (Z.ltb_spec (area L id) k); [lia | reflexivity].
  - rewrite Hn. simpl. now destruct (area L id <? k).
Qed.

Lemma step_settles (k : Z) (L : LabelMap) (id : Z) :
  0 < id → settled k (merge_step k L id) id.
Proof.
  intros Hid. unfold merge_step.
  destruct (Z.ltb_spec (area L id) k) as [Hlt | Hge]; [| now left].
  destruct (pick_largest L (nbr_labels L id)) as [t |] eqn:E.
  - right. apply pick_largest_in, in_nbr_labels in E
      as (_ & _ & _ & _ & _ & _ & _ & Hne).
    apply no_nbrs_iff. intros p q _ Hg. exfalso.
    rewrite get_relabel in Hg by lia.
    destruct (Z.eqb_spec (get L p) id); congruence.
  - right. now apply pick_largest_none in E.
Qed.

Lemma step_preserves (k : Z) (L : LabelMap) (id j : Z) :
  0 < id → 0 < j → j ≠ id →
  settled k L j → settled k (merge_step k L id) j.
Proof.
  intros Hid Hj Hne Hs. unfold merge_step.
  destruct (area L id <? k); [| exact Hs].
  destruct (pick_largest L (nbr_labels L id)) as [t |] eqn:E; [| exact Hs].
  destruct Hs as [Hk | Hn].
  - left. pose proof (area_relabel_mono L id t j ltac:(lia) Hne). lia.
  - right.
    apply pick_largest_in, in_nbr_labels in E
      as (p0 & q0 & Hc0 & Hg0 & Hn0 & Hq0 & Ht0 & Htne).
    rewrite no_nbrs_iff in Hn.
    assert (Htj : t ≠ j).
    { intros ->.
      assert (Hq0c : In q0 (coords L)) by (apply in_coords; lia).
      destruct (Hn q0 p0 Hq0c Hq0 (nbrs4_sym _ _ Hn0)); lia. }
    apply no_nbrs_iff. intros p q Hc Hg Hnb.
    rewrite coords_relabel in Hc.
    rewrite get_relabel in Hg by lia. rewrite get_relabel by lia.
    destruct (Z.eqb_spec (get L p) id) as [Hp | Hp]; [congruence |].
    destruct (Hn p q Hc Hg Hnb) as [Hle | Heq].
    + left. destruct (Z.eqb_spec (get L q) id); lia.
    + right. destruct (Z.eqb_spec (get L q) id); congruence.
Qed.

Lemma step_keeps_settled (k : Z) (L : LabelMap) (id j : Z) :
  0 < id → 0 < j → settled k L j → settled k (merge_step k L id) j.
Proof.
  intros Hid Hj Hs. destruct (Z.eq_dec j id) as [-> | Hne].
  - now apply step_settles.
  - now apply step_preserves.
Qed.

(** *** The pass *)

Lemma pass_settles (k : Z) (ids : list Z) (L : LabelMap) (j : Z) :
  (∀ id, In id ids → 0 < id) →
  0 < j →
  settled k L j ∨ In j ids →
  settled k (fold_left (merge_step k) ids L) j.
Proof.
  revert L. induction ids as [| id rest IH]; intros L Hpos Hj H; simpl.
  - destruct H as [H | []]. exact H.
  - apply IH; [intros; apply Hpos; now right | exact Hj |].
    destruct H as [H | [-> | H]].
    + left. apply step_keeps_settled; [apply Hpos; now left | exact Hj | exact H].
    + left. now apply step_settles.
    + now right.
Qed.

Lemma pass_fixed (k : Z) (ids : list Z) (L : LabelMap) :
  (∀ id, In id ids → settled k L id) →
  fold_left (merge_step k) ids L = L.
Proof.
  induction ids as [| id rest IH]; intros H; simpl; [reflexivity |].
  rewrite settled_fixed by (apply H; now left).
  apply IH. intros; apply H; now right.
Qed.

Lemma in_ids_upto (n id : Z) : In id (ids_upto n) ↔ 0 < id <= n.
Proof.
  unfold ids_upto. rewrite in_map_iff. split.
  - intros (i & <- & Hi). apply in_seq in Hi. lia.
  - intros H. exists (Z.to_nat id). split; [lia |]. apply in_seq. lia.
Qed.

(** Labels are bounded by [max_label]. *)
Lemma nth_le_fold_max (l : list Z) (i : nat) :
  nth i l 0 <= fold_right Z.max 0 l.
Proof.
  revert i. induction l as [| x l IH]; intros i; simpl.
  - destruct i; lia.
  - destruct i as [| i]; [lia |]. specialize (IH i). lia.
Qed.

Lemma fold_max_nonneg (l : list Z) : 0 <= fold_right Z.max 0 l.
Proof. induction l as [| x l IH]; simpl; lia. Qed.

Lemma fold_max_app (a b : list Z) :
  fold_right Z.max 0 (a ++ b)
  = Z.max (fold_right Z.max 0 a) (fold_right Z.max 0 b).
Proof.
  induction a as [| x a IH]; simpl.
  - pose proof (fold_max_nonneg b). lia.
  - rewrite IH. lia.
Qed.

Lemma get_le_max_label (L : LabelMap) (p : pixel) : get L p <= max_label L.
Proof.
  destruct p as [r c]. unfold get, max_label.
  destruct ((r <? 0) || (c <? 0)); [apply fold_max_nonneg |].
  generalize (Z.to_nat r) as i. generalize (Z.to_nat c) as n. clear r c.
  intros n i. revert i. induction L as [| row L IH]; intros i.
  - simpl. destruct i, n; simpl; lia.
  - simpl. rewrite fold_max_app. destruct i as [| i].
    + pose proof (nth_le_fold_max row n). lia.
    + specialize (IH i). lia.
Qed.

(** An ID that occurs nowhere is settled. *)
Lemma absent_settled (k : Z) (L : LabelMap) (j : Z) :
  (∀ p, get L p ≠ j) → settled k L j.
Proof.
  intros H. right. apply no_nbrs_iff. intros p q _ Hg. now destruct (H p).
Qed.

(** After the pass, no instance ID is left with work to do. *)
Lemma merge_small_settles (L : LabelMap) (k : Z) (j : Z) :
  0 < j → settled k (merge_small L k) j.
Proof.
  intros Hj. unfold merge_small.
  apply pass_settles; [intros id Hid; apply in_ids_upto in Hid; lia | exact Hj |].
  destruct (Z_le_gt_dec j (max_label L)) as [Hle | Hgt].
  - right. apply in_ids_upto. lia.
  - left. apply absent_settled. intros p.
    pose proof (get_le_max_label L p). lia.
Qed.

(** C2. The LabelMerger is idempotent, and a label map in which no
    instance is undersized is a fixed point. *)
Theorem merge_small_idempotent (L : LabelMap) (k : Z) :
  merge_small (merge_small L k) k = merge_small L k
  ∧ ((∀ id, 0 < id → ¬ undersized L k id) → merge_small L k = L).
Proof.
  split.
  - unfold merge_small at 1. apply pass_fixed. intros id Hid.
    apply in_ids_upto in Hid. apply merge_small_settles. lia.
  - intros Hno. unfold merge_small. apply pass_fixed. intros id Hid.
    apply in_ids_upto in Hid. unfold undersized in Hno.
    destruct (Z_le_gt_dec k (area L id)) as [Hk | Hk]; [now left |].
    right. unfold nbr_labels.
    assert (Ha : area L id = 0).
    { specialize (Hno id ltac:(lia)). unfold area in *. lia. }
    unfold area in Ha.
    destruct (pixels_of L id); [reflexivity | simpl in Ha; lia].
Qed.

(** The scenario of the specification: one instance of 5000 pixels and an
    adjacent one of 50 pixels, merged with [min_size = 1000], leave a
    single instance of 5050 pixels. *)
Example merge_scenario :
  let L := repeat (repeat 1 100 ++ [2]) 50 in
  let R := merge_small L 1000 in
  area L 1 = 5000 ∧ area L 2 = 50 ∧ area R 1 = 5050 ∧ area R 2 = 0.
Proof. vm_compute. repeat split. Qed.

End LabelFacts.
(** ** Whole runs of the batch commands *)

Module RunFacts.
Import PyStr PyStrFacts PyHeap Cli CliFacts PathFacts Runs.

Section Batch.
Context {ndarray etree prediction : Type}.
Variable env : @Env ndarray etree prediction.

(** *** What decides the outcome of a run *)

Lemma segment_loop_normal args d sd r names s :
  fst (segment_loop env args d sd r names s) = Normal tt.
Proof.
  revert s. induction names as [| fn rest IH]; intros s; [reflexivity |].
  destruct (segment_iteration env args d sd r fn s) as (chunk & s1 & H1 & _).
  cbn [segment_loop]. unfold bind. rewrite H1. apply IH.
Qed.

Lemma show_loop_normal args d sd n names s :
  fst (show_loop env args d sd n names s) = Normal tt.
Proof.
  revert s. induction names as [| fn rest IH]; intros s; [reflexivity |].
  destruct (show_iteration env args d sd n fn s) as (chunk & s1 & H1 & _).
  cbn [show_loop]. unfold bind. rewrite H1. apply IH.
Qed.

Lemma main_show (args : Args) (s : state) :
  cmd args = show →
  main env args s =
    match prepare env args (after_logger args s) with
    | (Normal (d, names, sd), s1) =>
        show_loop env args d sd (List.length names) names s1
    | (Raised e, s1) => (Raised e, s1)
    | (Exited c, s1) => (Exited c, s1)
    end.
Proof.
  intros Hcmd. unfold main, after_logger, logger_events. rewrite Hcmd.
  destruct s as [t h]. unfold bind, emit, ret.
  destruct (verbose args); simpl; rewrite ?app_nil_r;
    destruct (prepare env args _) as [[[[d names] sd] | e | c] s1];
    reflexivity.
Qed.

Lemma main_classify (args : Args) (s : state) :
  cmd args = classify →
  main env args s =
    match prepare env args (after_logger args s) with
    | (Normal (d, names, sd), s1) =>
        with_csv env
          (extern_ EvCsvHeader (fun t => csv_writeheader env t) ;;;
           classify_loop env names) s1
    | (Raised e, s1) => (Raised e, s1)
    | (Exited c, s1) => (Exited c, s1)
    end.
Proof.
  intros Hcmd. unfold main, after_logger, logger_events. rewrite Hcmd.
  destruct s as [t h]. unfold bind at 1 2, emit, ret.
  destruct (verbose args); simpl; rewrite ?app_nil_r;
    destruct (prepare env args _) as [[[[d names] sd] | e | c] s1];
    reflexivity.
Qed.

(** How input selection can end. *)
Lemma prepare_outcome (args : Args) (s : state) :
  match fst (prepare env args s) with
  | Normal _ => True
  | Raised e =>
      truthy (dir args) = true
      ∧ load_folder env (trace s) (default "" (dir args))
          (command_file_ext (cmd args)) (ignored_suffixes args) = inl e
  | Exited c => c = -1
  end.
Proof.
  unfold prepare. run.
  repeat (split_match; simpl); try exact I; try reflexivity.
  all: split; [reflexivity | congruence].
Qed.

(** For [segment] and [show], the way a run ends is decided by input
    selection alone: once the names are selected the run returns
    normally, whatever happens to the individual files. The only
    exception that can leave [main] is one raised by [load_folder], and
    the only exit status is -1. *)
Theorem batch_outcome_decided_by_inputs (args : Args) (s : state) :
  cmd args ≠ classify →
  let o := fst (prepare env args (after_logger args s)) in
  fst (main env args s) = outcome_unit o
  ∧ match o with
    | Normal _ => True
    | Raised e =>
        truthy (dir args) = true
        ∧ load_folder env (trace s ++ logger_events args)
            (default "" (dir args)) (command_file_ext (cmd args))
            (ignored_suffixes args) = inl e
    | Exited c => c = -1
    end.
Proof.
  intros Hcmd o. split; [| apply (prepare_outcome args (after_logger args s))].
  subst o. destruct (cmd args) eqn:E; [| congruence |].
  - rewrite (main_segment env args s E). fold (after_logger args s).
    destruct (prepare env args (after_logger args s))
      as [[[[d names] sd] | e | c] s1]; try reflexivity.
    apply segment_loop_normal.
  - rewrite (main_show args s E).
    destruct (prepare env args (after_logger args s))
      as [[[[d names] sd] | e | c] s1]; try reflexivity.
    apply show_loop_normal.
Qed.

(** *** The [classify] loop *)

Lemma classify_body_spec (fn : string) (s : state) :
  match classify_body env fn s with
  | (Normal _, s') =>
      trace s' = trace s ++ classify_events fn ∧ store s' = store s
  | (Raised _, s') =>
      ∃ k, (k < 3)%nat
           ∧ trace s' = trace s ++ firstn (S k) (classify_events fn)
           ∧ store s' = store s
  | (Exited _, _) => False
  end.
Proof.
  unfold classify_events. run.
  repeat (split_match; simpl);
    first
      [ solve [split; [trace_eq | reflexivity]]
      | solve [exists 0%nat; split; [lia |]; split; [trace_eq | reflexivity]]
      | solve [exists 1%nat; split; [lia |]; split; [trace_eq | reflexivity]]
      | solve [exists 2%nat; split; [lia |]; split; [trace_eq | reflexivity]] ].
Qed.


Lemma classify_loop_extends (names : list string) (s : state) :
  ∃ q, trace (snd (classify_loop env names s)) = trace s ++ q.
Proof.
  revert s. induction names as [| fn rest IH]; intros s.
  - exists []. simpl. now rewrite app_nil_r.
  - pose proof (classify_body_spec fn s) as Hb.
    cbn [classify_loop]. unfold bind.
    destruct (classify_body env fn s) as [[[] | e | c] s1].
    + destruct Hb as [T1 _]. destruct (IH s1) as [q Hq].
      exists (classify_events fn ++ q). now rewrite Hq, T1, app_assoc.
    + destruct Hb as (k & _ & T1 & _). eauto.
    + destruct Hb.
Qed.

(** Once [result.csv] has been opened -- the header is written only
    then -- a [classify] run ends by closing it, also when a callee
    raises in between. *)
Theorem classify_closes_csv (args : Args) (s : state) :
  cmd args = classify →
  ∀ new, trace (snd (main env args s)) = trace s ++ new →
         In EvCsvHeader new →
         ∃ before, new = before ++ [EvCsvClose].
Proof.
  intros Hcmd new Hnew Hin. rewrite (main_classify args s Hcmd) in Hnew.
  assert (Hprep : ∃ n0, trace (snd (prepare env args (after_logger args s)))
                         = trace s ++ n0
                        ∧ ¬ In EvCsvHeader n0).
  { unfold after_logger, logger_events, prepare. run.
    repeat (split_match; simpl);
      (eexists; split;
       [ rewrite <- ?app_assoc; simpl; try reflexivity
       | intros H; simpl in H;
         repeat (destruct H as [H | H]; [discriminate H |]); destruct H ]). }
  destruct Hprep as (n0 & T0 & C0).
  destruct (prepare env args (after_logger args s))
    as [[[[d names] sd] | e | c] s1]; simpl in T0.
  - set (body := (extern_ EvCsvHeader (fun t => csv_writeheader env t) ;;;
                  classify_loop env names)) in Hnew.
    unfold with_csv, bind, extern_, extern in Hnew.
    destruct (csv_open env (trace s1) "./result.csv") as [e |];
      simpl in Hnew.
    + rewrite T0, <- app_assoc in Hnew.
      apply app_inv_head in Hnew. subst new.
      apply in_app_or in Hin as [Hin | [Hin | []]];
        [contradiction | discriminate Hin].
    + set (s1' := State (trace s1 ++ [EvCsvOpen "./result.csv"]) (store s1))
        in Hnew.
      assert (Hq : ∃ q, trace (snd (body s1')) = trace s1' ++ q).
      { unfold body, bind, extern_, extern.
        destruct (csv_writeheader env (trace s1')); simpl; [eauto |].
        match goal with
        | |- context [classify_loop env names ?st] =>
            destruct (classify_loop_extends names st) as [q Hq]
        end.
        exists (EvCsvHeader :: q). rewrite Hq. simpl.
        now rewrite <- app_assoc. }
      destruct Hq as [q Hq].
      destruct (body s1') as [o s2].
      simpl in Hq, Hnew. rewrite Hq in Hnew. subst s1'. simpl in Hnew.
      rewrite T0, <- !app_assoc in Hnew. apply app_inv_head in Hnew.
      subst new. exists (n0 ++ [EvCsvOpen "./result.csv"] ++ q).
      now rewrite <- !app_assoc.
  - simpl in Hnew. rewrite T0 in Hnew. apply app_inv_head in Hnew.
    subst new. contradiction.
  - simpl in Hnew. rewrite T0 in Hnew. apply app_inv_head in Hnew.
    subst new. contradiction.
Qed.

(** *** Files that fail early *)

(** When the image cannot be read, or the pipeline raises on it, the
    [segment] iteration for that file consists of the read, the pipeline
    call if it was reached, and the critical record: no result file is
    written for it, and the loop goes on. *)
Theorem failed_image_writes_nothing (args : Args) (d sd : string) (r : loc)
    (fn : string) (s : state) :
  let path := path_join d fn in
  let iteration :=
    try_except (segment_body env args d sd r fn) (segment_handler fn) s in
  match imread env (trace s) path with
  | inl e =>
      iteration
      = (Normal tt,
         State (trace s ++ [EvImread path;
                            EvCritical segment_failure_msg [fn; exn_str e]])
               (store s))
  | inr image =>
      match segmentation_pipeline env (trace s ++ [EvImread path]) (store s)
              image r with
      | (inl e, h') =>
          iteration
          = (Normal tt,
             State (trace s ++ [EvImread path;
                                EvPipeline r (heap_dict (store s) r);
                                EvCritical segment_failure_msg
                                  [fn; exn_str e]])
                   h')
      | (inr _, _) => True
      end
  end.
Proof.
  intros path iteration. subst path iteration. run.
  destruct (imread env (trace s) (path_join d fn)) as [e | image]; simpl.
  { now rewrite <- app_assoc. }
  destruct (segmentation_pipeline env _ (store s) image r) as [[e | [nu la]] h'];
    simpl.
  { now rewrite <- !app_assoc. }
  exact I.
Qed.

(** *** Single-image mode *)

Lemma segment_iteration_first args d sd r fn s :
  ∃ rest,
    trace (snd (try_except (segment_body env args d sd r fn)
                  (segment_handler fn) s))
    = trace s ++ EvImread (path_join d fn) :: rest.
Proof.
  run. repeat (split_match; simpl); eexists; trace_eq.
Qed.

Lemma show_iteration_first args d sd n fn s :
  ∃ rest,
    trace (snd (try_except (show_body env args d sd n fn)
                  (show_handler fn) s))
    = trace s ++ EvXmlParse (path_join d fn) :: rest.
Proof.
  run. repeat (split_match; simpl); eexists; trace_eq.
Qed.

(** Single-image mode ([--image_path p], no [--dir]) of [segment] and
    [show]. The run returns normally, and the first thing it does after
    the logger set-up is to read
    [os.path.join(str(Path(p).parent), p)]: the input directory is the
    parent of [p], and the one name to process is [p] itself, directory
    part included. That path is [p] when [p] is absolute and [./name]
    when [p] is a bare file name; when [p] is a relative path with a
    directory part, [d/name], the file read is [d/d/name] -- the
    directory is applied twice. *)
Theorem single_image_read_path (args : Args) (s : state) (p : string) :
  cmd args ≠ classify →
  truthy (dir args) = false →
  image_path args = Some p →
  p ≠ "" →
  (∃ rest,
     fst (main env args s) = Normal tt
     ∧ trace (snd (main env args s))
       = trace s ++ logger_events args
           ++ first_read (cmd args) (path_join (path_parent p) p) :: rest)
  ∧ (startswith p "/" = true → path_join (path_parent p) p = p)
  ∧ (∀ ds name,
       p = join_slash (ds ++ [name]) →
       forallb is_component (ds ++ [name]) = true →
       path_join (path_parent p) p
       = join_slash (match ds with
                     | [] => ["."; name]
                     | _ => ds ++ ds ++ [name]
                     end)).
Proof.
  intros Hcmd Hd Hi Hp. split; [| split].
  - set (sd := if truthy (save_dir args)
               then default "" (save_dir args) else path_parent p).
    destruct (cmd args) eqn:E; [| congruence |].
    + rewrite (main_segment env args s E).
      rewrite (prepare_image_path env args _ p Hd Hi Hp). fold sd.
      cbn [segment_loop].
      set (r := snd (build_segment_params _ _)).
      set (st := State _ _).
      destruct (segment_iteration env args (path_parent p) sd r p st)
        as (chunk & s1 & E1 & _).
      destruct (segment_iteration_first args (path_parent p) sd r p st)
        as [rest Hrest].
      rewrite E1 in Hrest. cbn [snd] in Hrest.
      exists rest. unfold bind. rewrite E1. unfold ret. cbn [fst snd].
      split; [reflexivity |]. rewrite Hrest. subst st. cbn [trace].
      now rewrite <- app_assoc.
    + rewrite (main_show args s E). unfold after_logger.
      rewrite (prepare_image_path env args _ p Hd Hi Hp). fold sd.
      cbn [show_loop List.length].
      set (st := State _ _).
      destruct (show_iteration env args (path_parent p) sd 1 p st)
        as (chunk & s1 & E1 & _).
      destruct (show_iteration_first args (path_parent p) sd 1 p st)
        as [rest Hrest].
      rewrite E1 in Hrest. cbn [snd] in Hrest.
      exists rest. unfold bind. rewrite E1. unfold ret. cbn [fst snd].
      split; [reflexivity |]. rewrite Hrest. subst st. cbn [trace].
      now rewrite <- app_assoc.
  - apply join_parent_absolute.
  - intros ds name -> Hgood. now apply join_parent_relative.
Qed.

End Batch.

(** [segment --dir .] in the sample environment. *)
Lemma batch_outcome_decided_by_inputs_witness :
  let args := sample_args segment (Some ".") None in
  let o := fst (prepare quiet_env args (after_logger args initial_state)) in
  fst (main quiet_env args initial_state) = outcome_unit o
  ∧ match o with
    | Normal _ => True
    | Raised e =>
        truthy (dir args) = true
        ∧ load_folder quiet_env (trace initial_state ++ logger_events args)
            (default "" (dir args)) (command_file_ext (cmd args))
            (ignored_suffixes args) = inl e
    | Exited c => c = -1
    end.
Proof.
  exact (batch_outcome_decided_by_inputs quiet_env
           (sample_args segment (Some ".") None) initial_state
           ltac:(discriminate)).
Defined.

(** [classify --dir .] in the sample environment: two rows, then the
    file is closed. *)
Lemma classify_closes_csv_witness :
  ∃ before,
    [ EvLoadFolder "." (ExtList ["PNG"; "JPG"; "JPEG"]) ["_mask"; "_xml2seg"];
      EvCsvOpen "./result.csv"; EvCsvHeader;
      EvImread "a.png"; EvClassify; EvCsvRow "a.png";
      EvImread "b.png"; EvClassify; EvCsvRow "b.png"; EvCsvClose ]
    = before ++ [EvCsvClose].
Proof.
  exact (classify_closes_csv quiet_env (sample_args classify (Some ".") None)
           initial_state eq_refl _ eq_refl
           (or_intror (or_intror (or_introl eq_refl)))).
Defined.

(** [brachistools segment --image_path x/a.png]: the file read is
    [x/x/a.png]. *)
Lemma single_image_read_path_witness :
  let args := sample_args segment None (Some "x/a.png") in
  (∃ rest,
     fst (main quiet_env args initial_state) = Normal tt
     ∧ trace (snd (main quiet_env args initial_state))
       = trace initial_state ++ logger_events args
           ++ first_read (cmd args)
                (path_join (path_parent "x/a.png") "x/a.png") :: rest)
  ∧ (startswith "x/a.png" "/" = true →
     path_join (path_parent "x/a.png") "x/a.png" = "x/a.png")
  ∧ (∀ ds name,
       "x/a.png" = join_slash (ds ++ [name]) →
       forallb is_component (ds ++ [name]) = true →
       path_join (path_parent "x/a.png") "x/a.png"
       = join_slash (match ds with
                     | [] => ["."; name]
                     | _ => ds ++ ds ++ [name]
                     end)).
Proof.
  exact (single_image_read_path quiet_env
           (sample_args segment None (Some "x/a.png")) initial_state
           "x/a.png" ltac:(discriminate) eq_refl eq_refl ltac:(discriminate)).
Defined.

End RunFacts.

(** ** The names of the files written *)

Module NameFacts.
Import PyStr PyStrFacts PyHeap Cli CliFacts FolderFacts Runs.





End NameFacts.

(** ** The defaults behind the parser and the record *)

Module DefaultsFacts.
Import PyStr PyHeap Cli ParamFacts Runs.

(** [get_arg_parser] can be built exactly when each of the seven nested
    defaults [default_segmentation_params[stage][param]] exists, whatever
    the command line holds; otherwise building the parser raises
    [KeyError] (or [TypeError] on a stage entry that is not a table). *)
Theorem parser_needs_all_defaults (h : heap) (cli : SegCli) :
  is_Some (parse_seg_args h cli)
  ↔ ∀ stage param,
      In (stage, param) default_paths →
      is_Some (dict_getitem2 h default_segmentation_params stage param).
Proof.
  unfold parse_seg_args, default_paths. split.
  - intros [a Ha] stage param Hin.
    repeat match type of Ha with
           | context [dict_getitem2 ?h ?l ?k1 ?k2] =>
               let E := fresh "E" in
               destruct (dict_getitem2 h l k1 k2) eqn:E;
                 [| discriminate Ha]; simpl in Ha
           end.
    simpl in Hin.
    repeat (destruct Hin as [[= <- <-] | Hin]; [rewrite ?E, ?E0, ?E1, ?E2, ?E3, ?E4, ?E5; eauto |]).
    destruct Hin.
  - intros H.
    repeat match goal with
           | |- context [dict_getitem2 ?h ?l ?k1 ?k2] =>
               let E := fresh "E" in
               destruct (H k1 k2 ltac:(simpl; auto 10)) as [? E];
               rewrite E; simpl
           end.
    eauto.
Qed.

(** The nested tables reachable from the record are the tables of the
    defaults: a read [segment_params[stage][param]] returns the default
    value, also when the option was given on the command line (whose
    value is stored under the flat key only). *)
Theorem nested_defaults_survive (h : heap) (a : SegArgs)
    (stage param : string) (v : value) :
  dict_getitem2 h default_segmentation_params stage param = Some v →
  stage_qualified stage = false →
  dict_getitem2 (fst (build_segment_params h a))
                (snd (build_segment_params h a)) stage param = Some v.
Proof.
  intros Hget Hq. unfold dict_getitem2, dict_getitem in *.
  rewrite build_other_keys.
  2:{ simpl. intros Hk.
      repeat (destruct Hk as [<- | Hk]; [discriminate Hq |]). destruct Hk. }
  destruct (heap_dict h default_segmentation_params !! stage)
    as [[n | l] |]; try discriminate Hget.
  assert (Hl : l ≠ snd (build_segment_params h a)).
  { intros ->. destruct (build_fresh h a) as [_ Hfresh].
    apply Hfresh. apply elem_of_dom. unfold heap_dict in Hget.
    destruct (h !! snd (build_segment_params h a)); [eauto |].
    simpl in Hget. rewrite lookup_empty in Hget. discriminate Hget. }
  unfold heap_dict at 1. rewrite build_frame by exact Hl. exact Hget.
Qed.

Lemma nested_defaults_survive_witness :
  dict_getitem2 (fst (build_segment_params sample_heap sample_seg_args))
                (snd (build_segment_params sample_heap sample_seg_args))
                "merge_small_labels" "min_size"
  = Some (VNum (NInt 100)).
Proof.
  exact (nested_defaults_survive sample_heap sample_seg_args
           "merge_small_labels" "min_size" (VNum (NInt 100))
           eq_refl eq_refl).
Defined.

End DefaultsFacts.

(** ** The sub-commands outside the batch part *)

Module DriverFacts.
Import PyStr PyHeap Cli Driver.

Ltac drun :=
  unfold main_full, gui_branch, config_branch, try_bare_except, read_global,
    dcall, dbind, demit, draise, dexit, dret, dlogger_events in *.

Section Whole.
Context {ndarray etree prediction : Type}.
Variable env : @DEnv ndarray etree prediction.

(** Every call of the program other than [version], [segment],
    [classify] and [show] ends abnormally: the namespace of [gui],
    [config] and of a call without sub-command has no attribute [dir],
    so whatever the branch did, "Prepare images" raises
    [AttributeError]. In particular a call without sub-command raises it
    right after the logger is set up, and [gui] raises it as soon as
    [gui.run()] returns. *)
Theorem no_dir_namespace_never_returns (g : Globals) (ns : namespace)
    (h : heap) (t : list devent) :
  lacks_dir ns = true →
  (∀ u, fst (main_full env g ns h t) ≠ Normal u)
  ∧ (∀ v, ns = NsNone v →
          main_full env g ns h t
          = (Raised attribute_error, t ++ dlogger_events v))
  ∧ (∀ v, ns = NsGui v → GUI_ENABLED g = true →
          gui_run env (t ++ dlogger_events v) = Normal tt →
          main_full env g ns h t
          = (Raised attribute_error, t ++ dlogger_events v ++ [DGuiRun])).
Proof.
  intros Hns. split; [| split].
  - intros u. destruct ns as [v | v | v | v pd | args]; try discriminate Hns;
      drun; repeat (CliFacts.split_match; simpl); discriminate.
  - intros v ->. drun. destruct v; simpl; now rewrite ?app_nil_r.
  - intros v -> Hg Hrun. drun. rewrite Hg. simpl.
    destruct v; simpl in *; rewrite ?app_nil_r in *; rewrite Hrun;
      now rewrite <- ?app_assoc.
Qed.

(** When the GUI package could not be imported, [gui] prints the import
    error and the installation hint and leaves with status -1. The hint
    is always printed: the only way for the module to load with
    [GUI_ENABLED] false is the [except ImportError] clause, which sets
    [GUI_IMPORT] to true (the other clause re-raises), so neither global
    is ever read unassigned. *)
Theorem gui_unavailable_exits (r : gui_import) (g : Globals) (v : bool)
    (h : heap) (t : list devent) :
  import_block r = inr g →
  GUI_ENABLED g = false →
  ∃ err,
    r = GuiImportError err
    ∧ main_full env g (NsGui v) h t
      = (Exited (-1),
         t ++ dlogger_events v
           ++ [ DPrint ("GUI ERROR: " +:+ exn_str err);
                DPrint gui_hint_1; DPrint gui_hint_2 ]).
Proof.
  intros Himp Hen. destruct r as [| err | err]; simpl in Himp.
  - injection Himp as <-. discriminate Hen.
  - injection Himp as <-. exists err. split; [reflexivity |].
    drun. simpl. destruct v; simpl; now rewrite <- ?app_assoc.
  - discriminate Himp.
Qed.

(** The [config] command: [config.ini] is opened for writing only after
    it was read and the option was set without error, so a failure of
    either leaves the file untouched. A failure while reading is logged
    as a critical record and ends the program with status -1; a failure
    of [config.set] (no [ModelParams] section, say) leaves [main] as that
    exception. *)
Theorem config_command (g : Globals) (v : bool) (param_dir : string)
    (h : heap) (t : list devent) :
  let t0 := t ++ dlogger_events v in
  let t1 := t0 ++ [DConfigRead "config.ini"] in
  ∃ o new,
    main_full env g (NsConfig v param_dir) h t = (o, t0 ++ new)
    ∧ (existsb writes_config new = true →
       config_read env t0 "config.ini" = None
       ∧ config_set env t1 "ModelParams" "param_dir" param_dir = None)
    ∧ (config_read env t0 "config.ini" ≠ None →
       o = Exited (-1)
       ∧ new = [ DConfigRead "config.ini";
                 DCritical "Failed to open config file" ])
    ∧ (∀ e, config_read env t0 "config.ini" = None →
            config_set env t1 "ModelParams" "param_dir" param_dir = Some e →
            o = Raised e
            ∧ new = [ DConfigRead "config.ini";
                      DConfigSet "ModelParams" "param_dir" param_dir ]).
Proof.
  intros t0 t1. subst t0 t1.
  assert (Hlog : ∀ k : unit → DM unit,
            dbind (if v then demit DLoggerSetup else dret tt) k t
            = k tt (t ++ dlogger_events v))
    by (intros k; destruct v; unfold dbind, demit, dret; simpl;
        now rewrite ?app_nil_r).
  unfold main_full. rewrite Hlog. clear Hlog.
  set (t0 := t ++ dlogger_events v).
  unfold config_branch, try_bare_except, dcall, dbind, demit, draise, dexit,
    dret.
  destruct (config_read env t0 "config.ini") as [e0 |] eqn:Hread; simpl.
  - eexists _, _. split; [rewrite <- !app_assoc; reflexivity |].
    simpl. repeat split; try discriminate; congruence.
  - destruct (config_set env (t0 ++ [DConfigRead "config.ini"]) "ModelParams"
                "param_dir" param_dir) as [e1 |] eqn:Hset; simpl.
    + eexists _, _. split; [rewrite <- !app_assoc; reflexivity |].
      simpl. repeat split; try discriminate; try congruence.
    + repeat (CliFacts.split_match; simpl);
        (eexists _, _; split; [rewrite <- !app_assoc; reflexivity |];
         simpl; repeat split; try discriminate; try congruence).
Qed.

End Whole.

(** [brachistools config] with a [config.ini] that has no [ModelParams]
    section. *)
Lemma no_dir_namespace_never_returns_witness :
  (∀ u, fst (main_full sample_denv
               {| GUI_ENABLED := true; GUI_ERROR := None; GUI_IMPORT := None |}
               (NsConfig false "models") sample_heap []) ≠ Normal u)
  ∧ (∀ v, NsConfig false "models" = NsNone v →
          main_full sample_denv
            {| GUI_ENABLED := true; GUI_ERROR := None; GUI_IMPORT := None |}
            (NsConfig false "models") sample_heap []
          = (Raised attribute_error, [] ++ dlogger_events v))
  ∧ (∀ v, NsConfig false "models" = NsGui v → true = true →
          gui_run sample_denv ([] ++ dlogger_events v) = Normal tt →
          main_full sample_denv
            {| GUI_ENABLED := true; GUI_ERROR := None; GUI_IMPORT := None |}
            (NsConfig false "models") sample_heap []
          = (Raised attribute_error, [] ++ dlogger_events v ++ [DGuiRun])).
Proof.
  exact (no_dir_namespace_never_returns sample_denv
           {| GUI_ENABLED := true; GUI_ERROR := None; GUI_IMPORT := None |}
           (NsConfig false "models") sample_heap [] eq_refl).
Defined.

(** [brachistools gui] on an installation without the GUI package. *)
Lemma gui_unavailable_exits_witness :
  ∃ err,
    GuiImportError (Exception "No module named 'brachistools.gui'")
    = GuiImportError err
    ∧ main_full sample_denv
        {| GUI_ENABLED := false;
           GUI_ERROR := Some (Exception "No module named 'brachistools.gui'");
           GUI_IMPORT := Some true |}
        (NsGui false) sample_heap []
      = (Exited (-1),
         [] ++ dlogger_events false
            ++ [ DPrint ("GUI ERROR: " +:+ exn_str err);
                 DPrint gui_hint_1; DPrint gui_hint_2 ]).
Proof.
  exact (gui_unavailable_exits sample_denv
           (GuiImportError (Exception "No module named 'brachistools.gui'"))
           _ false sample_heap [] eq_refl eq_refl).
Defined.

End DriverFacts.
